(** * Replication and conflict resolution of the reflection journal

    A shallow embedding of the synchronisation core of the journal
    (github_sync.py, sync_manager.py and the deletion-backup queue of
    main.py), followed by the properties of that core.

    Conventions of the model.
    - Timestamps are whole seconds (Z).  The SQLite columns hold them as
      text of one fixed layout, whose text order is the order of time.
    - The table [reflections] is a finite map from the primary key to the
      other columns.  The column [tags] holds JSON text; it is modelled by
      the list that text decodes to, [None] standing for NULL and for the
      empty text, which the code does not tell apart.
    - A snapshot file of the remote repository is modelled by the JSON
      value it holds, a backup file name by the number YYYYMM in it.
    - Local storage (SQLite, the sync-state file) does not fail, apart from
      the primary-key violation of an INSERT.  Every call to the remote API
      may fail: the state carries a script of faults, one entry per call.
    - A call runs at one reading of the clock. *)

From Stdlib Require Import ZArith Lia.
From stdpp Require Import base option list sorting gmap sets strings pretty.

Open Scope Z_scope.

(** ** Data model *)

(** The columns of one row of table [reflections], primary key apart. *)
Record Cols := {
  content    : string;
  summary    : option string;
  tags       : option (list string);
  category   : option string;
  created_at : Z;
  updated_at : Z;
  type       : option string;
  embedding  : option (list Byte.byte)
}.

(** One entry of a snapshot's [reflections] list: a JSON object.  The keys
    read with [.get(key, default)] may be missing (outer [None]); a key that
    is present may hold null (inner [None]). *)
Record Reflection := {
  r_id         : Z;
  r_content    : string;
  r_summary    : option (option string);
  r_tags       : option (list string);
  r_category   : option (option string);
  r_created_at : Z;
  r_updated_at : Z;
  r_type       : option (option string)
}.

Record Snapshot := {
  export_time : Z;
  total_count : nat;
  reflections : list Reflection
}.

(** A backup file of the remote repository with the author dates of its
    commits, newest first. *)
Record RemoteFile := {
  rf_content : Snapshot;
  rf_commits : list Z
}.

(** The body of a file under [deleted_records/]. *)
Record DeletedBackup := {
  deleted_at : Z;
  record     : Reflection
}.

Inductive exn :=
  | GithubException (status : Z)
  | RequestException
  | AttributeError
  | IntegrityError.

Definition exn_str (e : exn) : string :=
  match e with
  | GithubException _ => "GithubException"
  | RequestException => "RequestException"
  | AttributeError => "AttributeError"
  | IntegrityError => "IntegrityError"
  end.

(** The calls made to the remote API, kept as a history of the run. *)
Inductive ApiCall :=
  | GetContentsRoot
  | GetContents (name : Z)
  | GetCommits (name : Z)
  | UpdateFile (name : Z) (body : Snapshot)
  | CreateFile (name : Z) (body : Snapshot)
  | CreateDeleted (rid : Z) (at_time : Z) (body : DeletedBackup).

Record GitHubSync := {
  token     : string;
  repo_name : string;
  repo      : bool
}.

Inductive SyncStatus := StSuccess | StError.

Record State := {
  (* the local SQLite database *)
  table           : gmap Z Cols;
  sync_log        : list (Z * SyncStatus * string);
  (* .sync_state.json: no file, or the value of its key last_sync_time *)
  sync_state_file : option (option Z);
  (* the remote repository *)
  backups         : gmap Z RemoteFile;
  deleted_records : gmap (Z * Z) DeletedBackup;
  (* the environment *)
  clock           : Z;
  month           : Z;
  faults          : list (option exn);
  api_trace       : list ApiCall;
  (* SyncManager *)
  github_sync     : GitHubSync;
  is_syncing      : bool;
  last_sync_time  : option Z;
  sync_deletions  : bool;
  sync_callbacks  : nat;
  callback_runs   : nat;
  (* ReflectionJournalApp *)
  app_github_sync : GitHubSync;
  backup_queue    : list Reflection
}.

Definition set_table (f : gmap Z Cols → gmap Z Cols) (w : State) : State :=
  {| table := f (table w); sync_log := sync_log w;
     sync_state_file := sync_state_file w; backups := backups w;
     deleted_records := deleted_records w; clock := clock w; month := month w;
     faults := faults w; api_trace := api_trace w;
     github_sync := github_sync w; is_syncing := is_syncing w;
     last_sync_time := last_sync_time w; sync_deletions := sync_deletions w;
     sync_callbacks := sync_callbacks w; callback_runs := callback_runs w;
     app_github_sync := app_github_sync w; backup_queue := backup_queue w |}.

Definition set_sync_log
    (f : list (Z * SyncStatus * string) → list (Z * SyncStatus * string))
    (w : State) : State :=
  {| table := table w; sync_log := f (sync_log w);
     sync_state_file := sync_state_file w; backups := backups w;
     deleted_records := deleted_records w; clock := clock w; month := month w;
     faults := faults w; api_trace := api_trace w;
     github_sync := github_sync w; is_syncing := is_syncing w;
     last_sync_time := last_sync_time w; sync_deletions := sync_deletions w;
     sync_callbacks := sync_callbacks w; callback_runs := callback_runs w;
     app_github_sync := app_github_sync w; backup_queue := backup_queue w |}.

Definition set_sync_state_file (v : option (option Z)) (w : State) : State :=
  {| table := table w; sync_log := sync_log w;
     sync_state_file := v; backups := backups w;
     deleted_records := deleted_records w; clock := clock w; month := month w;
     faults := faults w; api_trace := api_trace w;
     github_sync := github_sync w; is_syncing := is_syncing w;
     last_sync_time := last_sync_time w; sync_deletions := sync_deletions w;
     sync_callbacks := sync_callbacks w; callback_runs := callback_runs w;
     app_github_sync := app_github_sync w; backup_queue := backup_queue w |}.

Definition set_backups (f : gmap Z RemoteFile → gmap Z RemoteFile)
    (w : State) : State :=
  {| table := table w; sync_log := sync_log w;
     sync_state_file := sync_state_file w; backups := f (backups w);
     deleted_records := deleted_records w; clock := clock w; month := month w;
     faults := faults w; api_trace := api_trace w;
     github_sync := github_sync w; is_syncing := is_syncing w;
     last_sync_time := last_sync_time w; sync_deletions := sync_deletions w;
     sync_callbacks := sync_callbacks w; callback_runs := callback_runs w;
     app_github_sync := app_github_sync w; backup_queue := backup_queue w |}.

Definition set_deleted_records
    (f : gmap (Z * Z) DeletedBackup → gmap (Z * Z) DeletedBackup)
    (w : State) : State :=
  {| table := table w; sync_log := sync_log w;
     sync_state_file := sync_state_file w; backups := backups w;
     deleted_records := f (deleted_records w); clock := clock w;
     month := month w;
     faults := faults w; api_trace := api_trace w;
     github_sync := github_sync w; is_syncing := is_syncing w;
     last_sync_time := last_sync_time w; sync_deletions := sync_deletions w;
     sync_callbacks := sync_callbacks w; callback_runs := callback_runs w;
     app_github_sync := app_github_sync w; backup_queue := backup_queue w |}.

(** One call to the remote API: the call enters the history and takes the
    next entry of the script of faults. *)
Definition set_api (c : ApiCall) (w : State) : State :=
  {| table := table w; sync_log := sync_log w;
     sync_state_file := sync_state_file w; backups := backups w;
     deleted_records := deleted_records w; clock := clock w; month := month w;
     faults := tail (faults w); api_trace := api_trace w ++ [c];
     github_sync := github_sync w; is_syncing := is_syncing w;
     last_sync_time := last_sync_time w; sync_deletions := sync_deletions w;
     sync_callbacks := sync_callbacks w; callback_runs := callback_runs w;
     app_github_sync := app_github_sync w; backup_queue := backup_queue w |}.

Definition set_is_syncing (b : bool) (w : State) : State :=
  {| table := table w; sync_log := sync_log w;
     sync_state_file := sync_state_file w; backups := backups w;
     deleted_records := deleted_records w; clock := clock w; month := month w;
     faults := faults w; api_trace := api_trace w;
     github_sync := github_sync w; is_syncing := b;
     last_sync_time := last_sync_time w; sync_deletions := sync_deletions w;
     sync_callbacks := sync_callbacks w; callback_runs := callback_runs w;
     app_github_sync := app_github_sync w; backup_queue := backup_queue w |}.

Definition set_last_sync_time (t : option Z) (w : State) : State :=
  {| table := table w; sync_log := sync_log w;
     sync_state_file := sync_state_file w; backups := backups w;
     deleted_records := deleted_records w; clock := clock w; month := month w;
     faults := faults w; api_trace := api_trace w;
     github_sync := github_sync w; is_syncing := is_syncing w;
     last_sync_time := t; sync_deletions := sync_deletions w;
     sync_callbacks := sync_callbacks w; callback_runs := callback_runs w;
     app_github_sync := app_github_sync w; backup_queue := backup_queue w |}.

Definition set_callback_runs (n : nat) (w : State) : State :=
  {| table := table w; sync_log := sync_log w;
     sync_state_file := sync_state_file w; backups := backups w;
     deleted_records := deleted_records w; clock := clock w; month := month w;
     faults := faults w; api_trace := api_trace w;
     github_sync := github_sync w; is_syncing := is_syncing w;
     last_sync_time := last_sync_time w; sync_deletions := sync_deletions w;
     sync_callbacks := sync_callbacks w; callback_runs := n;
     app_github_sync := app_github_sync w; backup_queue := backup_queue w |}.

Definition set_backup_queue (f : list Reflection → list Reflection)
    (w : State) : State :=
  {| table := table w; sync_log := sync_log w;
     sync_state_file := sync_state_file w; backups := backups w;
     deleted_records := deleted_records w; clock := clock w; month := month w;
     faults := faults w; api_trace := api_trace w;
     github_sync := github_sync w; is_syncing := is_syncing w;
     last_sync_time := last_sync_time w; sync_deletions := sync_deletions w;
     sync_callbacks := sync_callbacks w; callback_runs := callback_runs w;
     app_github_sync := app_github_sync w; backup_queue := f (backup_queue w) |}.

(** ** A state monad with exceptions *)

Inductive Outcome (A : Type) :=
  | Ret (a : A)
  | Raise (e : exn).
Arguments Ret {A} a.
Arguments Raise {A} e.

Definition M (A : Type) : Type := State → Outcome A * State.

Definition ret {A} (a : A) : M A := λ w, (Ret a, w).
Definition raise {A} (e : exn) : M A := λ w, (Raise e, w).
Definition bind {A B} (m : M A) (k : A → M B) : M B :=
  λ w, match m w with
       | (Ret a, w') => k a w'
       | (Raise e, w') => (Raise e, w')
       end.
Definition gets {A} (f : State → A) : M A := λ w, (Ret (f w), w).
Definition modify (f : State → State) : M unit := λ w, (Ret (), f w).

#[global] Instance M_ret : MRet M := @ret.
#[global] Instance M_bind : MBind M := λ A B k m, bind m k.

(** [try: m except Exception as e: h e] *)
Definition try_except {A} (m : M A) (h : exn → M A) : M A :=
  λ w, match m w with
       | (Ret a, w') => (Ret a, w')
       | (Raise e, w') => h e w'
       end.

(** [try: m except GithubException: h]; other exceptions pass. *)
Definition try_except_github {A} (m : M A) (h : M A) : M A :=
  λ w, match m w with
       | (Raise (GithubException _), w') => h w'
       | r => r
       end.

(** [try: m finally: f] *)
Definition try_finally {A} (m : M A) (f : State → State) : M A :=
  λ w, match m w with (r, w') => (r, f w') end.

(** ** LocalStore: export and import (github_sync.py) *)

(** [dict(row)], [tags] decoded when truthy, [embedding] popped. *)
Definition export_row (i : Z) (c : Cols) : Reflection :=
  {| r_id := i;
     r_content := content c;
     r_summary := Some (summary c);
     r_tags := tags c;
     r_category := Some (category c);
     r_created_at := created_at c;
     r_updated_at := updated_at c;
     r_type := Some (type c) |}.

(** [ORDER BY created_at] *)
Definition by_created_at (x y : Z * Cols) : Prop :=
  created_at x.2 ≤ created_at y.2.

#[global] Instance by_created_at_dec x y : Decision (by_created_at x y).
Proof. unfold by_created_at. apply _. Defined.

Definition select_all (t : gmap Z Cols) : list (Z * Cols) :=
  merge_sort by_created_at (map_to_list t).

Definition export_to_json (now : Z) (t : gmap Z Cols) : Snapshot :=
  {| export_time := now;
     total_count := size t;
     reflections := (λ x, export_row x.1 x.2) <$> select_all t |}.

(** [json.dumps(reflection['tags']) if reflection['tags'] else "[]"] *)
Definition tags_str (v : option (list string)) : option (list string) :=
  match v with
  | Some (x :: l) => Some (x :: l)
  | _ => Some []
  end.

(** The values bound by the INSERT statements; no value for [embedding]. *)
Definition import_cols (r : Reflection) : Cols :=
  {| content := r_content r;
     summary := default (Some "") (r_summary r);
     tags := tags_str (r_tags r);
     category := default (Some "") (r_category r);
     created_at := r_created_at r;
     updated_at := r_updated_at r;
     type := default (Some "daily") (r_type r);
     embedding := None |}.

(** The INSERT loop of [_import_from_json]; [None] is the IntegrityError of
    a primary key that is already there. *)
Fixpoint insert_all (rs : list Reflection) (t : gmap Z Cols)
    : option (gmap Z Cols) :=
  match rs with
  | [] => Some t
  | r :: rs' =>
      match t !! r_id r with
      | Some _ => None
      | None => insert_all rs' (<[r_id r := import_cols r]> t)
      end
  end.

(** DELETE, then the INSERT loop, in one transaction: an exception leaves
    it uncommitted, and the table as it was. *)
Definition _import_from_json (data : Snapshot) : M bool :=
  λ w, match insert_all (reflections data) ∅ with
       | Some t => (Ret true, set_table (λ _, t) w)
       | None => (Ret false, w)
       end.

Definition _update_sync_log (status : SyncStatus) (message : string)
    : M unit :=
  modify (λ w, set_sync_log (λ l, l ++ [(clock w, status, message)]) w).

(** ** RemoteSnapshotStore: the repository API *)

Definition is_configured (gh : GitHubSync) : bool :=
  bool_decide (token gh ≠ "") && bool_decide (repo_name gh ≠ "") && repo gh.

(** A call on [gh.repo]: AttributeError when [repo] is None; else the call
    is made and raises what the script of faults says. *)
Definition api_call (gh : GitHubSync) (c : ApiCall) : M unit :=
  λ w, if repo gh then
         match head (faults w) with
         | Some (Some e) => (Raise e, set_api c w)
         | _ => (Ret (), set_api c w)
         end
       else (Raise AttributeError, w).

(** [repo.get_contents("")], kept to the files named
    [reflections_backup_*.json]. *)
Definition get_contents_root (gh : GitHubSync) : M (list (Z * RemoteFile)) :=
  api_call gh GetContentsRoot;;
  gets (λ w, map_to_list (backups w)).

Definition get_contents (gh : GitHubSync) (name : Z) : M RemoteFile :=
  api_call gh (GetContents name);;
  ((λ w, match backups w !! name with
         | Some f => (Ret f, w)
         | None => (Raise (GithubException 404), w)
         end) : M RemoteFile).

Definition get_commits (gh : GitHubSync) (name : Z) : M (list Z) :=
  api_call gh (GetCommits name);;
  gets (λ w, from_option rf_commits [] (backups w !! name)).

(** [repo.update_file] with the sha that was just read. *)
Definition update_file (gh : GitHubSync) (name : Z) (body : Snapshot)
    : M unit :=
  api_call gh (UpdateFile name body);;
  ((λ w, match backups w !! name with
         | Some f =>
             (Ret (), set_backups (<[name :=
                {| rf_content := body;
                   rf_commits := clock w :: rf_commits f |}]>) w)
         | None => (Raise (GithubException 404), w)
         end) : M unit).

Definition create_file (gh : GitHubSync) (name : Z) (body : Snapshot)
    : M unit :=
  api_call gh (CreateFile name body);;
  ((λ w, match backups w !! name with
         | Some _ => (Raise (GithubException 422), w)
         | None =>
             (Ret (), set_backups (<[name :=
                {| rf_content := body; rf_commits := [clock w] |}]>) w)
         end) : M unit).

(** [max(files, key=name)], and the head of the files sorted by name in
    reverse: the first file of the greatest name. *)
Definition max_by_name (l : list (Z * RemoteFile)) : option (Z * RemoteFile) :=
  foldl (λ acc f,
           match acc with
           | None => Some f
           | Some g => if decide (g.1 < f.1) then Some f else Some g
           end) None l.

(** ** GitHubSync *)

Definition sync_to_github : M bool :=
  gh ← gets github_sync;
  if negb (is_configured gh) then mret false else
  try_except
    (json_content ← gets (λ w, export_to_json (clock w) (table w));
     file_path ← gets month;
     try_except_github
       (file ← get_contents gh file_path;
        update_file gh file_path json_content)
       (create_file gh file_path json_content);;
     _update_sync_log StSuccess "同步成功";;
     mret true)
    (λ e, _update_sync_log StError (exn_str e);; mret false).

Definition sync_from_github : M bool :=
  gh ← gets github_sync;
  if negb (is_configured gh) then mret false else
  try_except
    (backup_files ← get_contents_root gh;
     match max_by_name backup_files with
     | None => mret false
     | Some latest_file => _import_from_json (rf_content latest_file.2)
     end)
    (λ _, mret false).

(** ** SyncManager (sync_manager.py) *)

(** [SELECT MAX(updated_at) FROM reflections] *)
Definition max_updated_at (t : gmap Z Cols) : option Z :=
  map_fold (λ _ c acc,
              Some (match acc with
                    | None => updated_at c
                    | Some m => Z.max m (updated_at c)
                    end)) None t.

Definition _get_local_last_modified : M (option Z) :=
  gets (λ w, max_updated_at (table w)).

Definition _get_remote_last_modified : M (option Z) :=
  gh ← gets github_sync;
  try_except
    (backup_files ← get_contents_root gh;
     match max_by_name backup_files with
     | None => mret None
     | Some latest_file =>
         commits ← get_commits gh latest_file.1;
         mret (head commits)
     end)
    (λ _, mret None).

Definition _export_local_data : M Snapshot :=
  gets (λ w, export_to_json (clock w) (table w)).

Definition _save_last_sync_time : M unit :=
  modify (λ w, set_sync_state_file (Some (last_sync_time w)) w).

Definition _load_last_sync_time (w : State) : option Z :=
  match sync_state_file w with
  | Some (Some t) => Some t
  | _ => None
  end.

Definition _notify_sync_complete : M unit :=
  modify (λ w, set_callback_runs (callback_runs w + sync_callbacks w)%nat w).

(** [{r['id']: r for r in reflections}]: a later entry replaces an earlier
    one of the same id. *)
Definition dict_by_id (rs : list Reflection) : gmap Z Reflection :=
  foldl (λ d r, <[r_id r := r]> d) ∅ rs.

(** The INSERT OR REPLACE loop over [locally_added]; its ids are keys of
    [local_ids], so the lookup finds them. *)
Definition restore (local_ids : gmap Z Reflection) (ids : list Z)
    (t : gmap Z Cols) : gmap Z Cols :=
  foldl (λ t i,
           match local_ids !! i with
           | Some reflection => <[r_id reflection := import_cols reflection]> t
           | None => t
           end) t ids.

Definition _merge_from_remote : M unit :=
  local_data ← _export_local_data;
  let local_ids := dict_by_id (reflections local_data) in
  let local_id_set : gset Z := dom local_ids in
  let original_local_ids := local_id_set in
  sync_from_github;;
  remote_data ← _export_local_data;
  let remote_ids := dict_by_id (reflections remote_data) in
  let remote_id_set : gset Z := dom remote_ids in
  let locally_added := original_local_ids ∖ remote_id_set in
  sd ← gets sync_deletions;
  if negb sd then
    modify (set_table (restore local_ids (elements locally_added)));;
    sync_to_github;;
    mret ()
  else
    mret ().

Definition _smart_merge (local_time remote_time : Z) : M unit :=
  if decide (Z.abs (local_time - remote_time) < 60) then mret ()
  else if decide (remote_time > local_time) then _merge_from_remote
  else sync_to_github;; mret ().

Definition sync_on_startup : M unit :=
  try_except
    (local_last_modified ← _get_local_last_modified;
     remote_last_modified ← _get_remote_last_modified;
     match remote_last_modified, local_last_modified with
     | None, _ => sync_to_github;; mret ()
     | Some _, None => sync_from_github;; mret ()
     | Some remote_time, Some local_time =>
         _smart_merge local_time remote_time
     end;;
     modify (λ w, set_last_sync_time (Some (clock w)) w);;
     _save_last_sync_time)
    (λ _, mret ()).

(** The synchronous part of [start_auto_sync]; the thread that it starts
    then runs [_sync_loop]. *)
Definition start_auto_sync : M unit :=
  gh ← gets github_sync;
  if negb (is_configured gh) then mret () else sync_on_startup.

Definition manual_sync (direction : string) : M bool :=
  busy ← gets is_syncing;
  if (busy : bool) then mret false else
  modify (set_is_syncing true);;
  try_finally
    (success ←
       (if decide (direction = "upload") then sync_to_github
        else if decide (direction = "download") then sync_from_github
        else sync_on_startup;; mret true);
     (if (success : bool) then
        modify (λ w, set_last_sync_time (Some (clock w)) w);;
        _save_last_sync_time;;
        _notify_sync_complete
      else mret ());;
     mret success)
    (set_is_syncing false).

(** One turn of the loop of [_sync_loop], after its sleep. *)
Definition sync_tick : M unit :=
  busy ← gets is_syncing;
  if (busy : bool) then mret () else
  modify (set_is_syncing true);;
  try_finally
    (try_except
       (local_modified ← _get_local_last_modified;
        last ← gets last_sync_time;
        match local_modified, last with
        | Some lm, Some ls =>
            if decide (lm > ls) then
              sync_to_github;;
              modify (λ w, set_last_sync_time (Some (clock w)) w);;
              _save_last_sync_time;;
              _notify_sync_complete
            else mret ()
        | _, _ => mret ()
        end)
       (λ _, mret ()))
    (set_is_syncing false).

(** The first [n] turns of [_sync_loop]. *)
Fixpoint _sync_loop (n : nat) : M unit :=
  match n with
  | O => mret ()
  | S n' => sync_tick;; _sync_loop n'
  end.

(** ** DeletionBackupQueue (main.py) *)

Definition create_deleted (gh : GitHubSync) (rid at_time : Z)
    (body : DeletedBackup) : M unit :=
  api_call gh (CreateDeleted rid at_time body);;
  ((λ w, match deleted_records w !! (rid, at_time) with
         | Some _ => (Raise (GithubException 422), w)
         | None =>
             (Ret (), set_deleted_records (<[(rid, at_time) := body]>) w)
         end) : M unit).

Definition backup_deleted_record (reflection : Reflection) : M bool :=
  gh ← gets app_github_sync;
  if negb (is_configured gh) then mret false else
  modify (set_backup_queue (λ q, q ++ [reflection]));;
  mret true.

Definition _do_backup_to_github (reflection : Reflection) : M bool :=
  gh ← gets app_github_sync;
  now ← gets clock;
  let backup_data := {| deleted_at := now; record := reflection |} in
  try_except
    (create_deleted gh (r_id reflection) now backup_data;;
     mret true)
    (λ _, mret false).

(** The threads of the application around the queue, as a transition
    system.  [queue.Queue] makes [put] and [get] atomic and hands the jobs
    out first in, first out; [get] waits while the queue is empty.  The one
    worker thread runs [_process_backup_queue]: it takes a job, calls
    [_do_backup_to_github] on it and, when that call has returned, takes the
    next.  Any number of other threads call [backup_deleted_record]; sync
    sessions ([manual_sync], a turn of [_sync_loop]) run beside them. *)
Inductive Worker :=
  | AtGet
  | Got (job : Reflection)
  | InBackup (job : Reflection).

Inductive Event :=
  | Enqueue (job : Reflection) (accepted : bool)
  | WriteBegin (job : Reflection)
  | WriteEnd (job : Reflection) (ok : bool).

Record System := {
  st     : State;
  worker : Worker;
  events : list Event
}.

Inductive step : System → System → Prop :=
  | step_enqueue s job b w' :
      backup_deleted_record job (st s) = (Ret b, w') →
      step s {| st := w'; worker := worker s;
                events := events s ++ [Enqueue job b] |}
  | step_get s job q :
      worker s = AtGet →
      backup_queue (st s) = job :: q →
      step s {| st := set_backup_queue (λ _, q) (st s); worker := Got job;
                events := events s |}
  | step_begin s job :
      worker s = Got job →
      step s {| st := st s; worker := InBackup job;
                events := events s ++ [WriteBegin job] |}
  | step_end s job b w' :
      worker s = InBackup job →
      _do_backup_to_github job (st s) = (Ret b, w') →
      step s {| st := w'; worker := AtGet;
                events := events s ++ [WriteEnd job b] |}
  | step_manual_sync s direction b w' :
      manual_sync direction (st s) = (Ret b, w') →
      step s {| st := w'; worker := worker s; events := events s |}
  | step_tick s w' :
      sync_tick (st s) = (Ret (), w') →
      step s {| st := w'; worker := worker s; events := events s |}.

(** The application after [__init__]: an empty queue, the worker started,
    no call made yet. *)
Definition initial (s : System) : Prop :=
  backup_queue (st s) = [] ∧ worker s = AtGet ∧ events s = []
  ∧ api_trace (st s) = [].

Inductive reachable : System → Prop :=
  | reach_init s : initial s → reachable s
  | reach_step s s' : reachable s → step s s' → reachable s'.

(** The jobs accepted by [backup_deleted_record], in the order of the
    calls; the jobs whose write was begun, and those whose write was ended,
    in the order of the writes; the number of writes begun and not ended. *)
Definition enqueued (tr : list Event) : list Reflection :=
  omap (λ e, match e with Enqueue j true => Some j | _ => None end) tr.

Definition written (tr : list Event) : list Reflection :=
  omap (λ e, match e with WriteBegin j => Some j | _ => None end) tr.

Definition ended (tr : list Event) : list Reflection :=
  omap (λ e, match e with WriteEnd j _ => Some j | _ => None end) tr.

Definition in_flight (tr : list Event) : nat :=
  (length (written tr) - length (ended tr))%nat.

(** The records of the backup files that the remote was asked to create,
    in the order of the calls. *)
Definition backup_calls (tr : list ApiCall) : list Reflection :=
  omap (λ c, match c with
             | CreateDeleted _ _ body => Some (record body)
             | _ => None
             end) tr.

(** The worker alone, for [n] jobs: how the queue is drained when nothing
    else runs. *)
Fixpoint _process_backup_queue (n : nat) (s : System) : System :=
  match n with
  | O => s
  | S n' =>
      match worker s, backup_queue (st s) with
      | AtGet, job :: q =>
          let r := _do_backup_to_github job (set_backup_queue (λ _, q) (st s)) in
          _process_backup_queue n'
            {| st := r.2; worker := AtGet;
               events := events s ++
                 [WriteBegin job;
                  WriteEnd job (match r.1 with Ret b => b | Raise _ => false end)] |}
      | _, _ => s
      end
  end.

(** * Definitions for the statements *)

(** ** Reasoning about computations *)

(** [stable R m]: a run of [m] takes a state to an [R]-related one. *)
Definition stable {A} (R : relation State) (m : M A) : Prop :=
  ∀ w, R w (m w).2.

(** [keeps f]: the runs that leave the component [f] of the state alone. *)
Definition keeps {B} (f : State → B) : relation State :=
  λ w w', f w' = f w.

(** [no_raise m]: [m] returns, whatever the state. *)
Definition no_raise {A} (m : M A) : Prop :=
  ∀ w, ∃ a, (m w).1 = Ret a.

(** The clock and the configuration: no operation changes them. *)
Definition settings (w : State) :=
  (clock w, month w, github_sync w, sync_deletions w, sync_callbacks w,
   app_github_sync w).

(** LocalStore and the remote store. *)
Definition stores (w : State) :=
  (table w, sync_log w, backups w, deleted_records w).

(** ** States for the examples *)

Definition gh_configured : GitHubSync :=
  {| token := "ghp_token"; repo_name := "user/journal"; repo := true |}.

Definition a_row (ts : Z) (e : option (list Byte.byte)) : Cols :=
  {| content := "draft"; summary := Some ""; tags := Some ["work"];
     category := Some ""; created_at := ts; updated_at := ts;
     type := Some "daily"; embedding := e |}.

(** A journal of three records that was never synchronised, next to an
    empty repository. *)
Definition fresh_state : State :=
  {| table := <[1 := a_row 100 None]> (<[2 := a_row 200 None]>
                (<[3 := a_row 300 None]> ∅));
     sync_log := []; sync_state_file := None;
     backups := ∅; deleted_records := ∅;
     clock := 5000; month := 202611; faults := []; api_trace := [];
     github_sync := gh_configured; is_syncing := false;
     last_sync_time := None; sync_deletions := true;
     sync_callbacks := 1; callback_runs := 0;
     app_github_sync := gh_configured; backup_queue := [] |}.

(** The network is down: every call to the remote raises.  The repository
    holds a snapshot of last month; the last sync was at time 1000. *)
Definition offline_state : State :=
  {| table := <[1 := a_row 100 None]> (<[2 := a_row 200 None]>
                (<[3 := a_row 300 None]> ∅));
     sync_log := []; sync_state_file := Some (Some 1000);
     backups := <[202610 :=
       {| rf_content := {| export_time := 900; total_count := 1;
                           reflections := [export_row 1 (a_row 100 None)] |};
          rf_commits := [900] |}]> ∅;
     deleted_records := ∅;
     clock := 5000; month := 202611;
     faults := replicate 8 (Some RequestException); api_trace := [];
     github_sync := gh_configured; is_syncing := false;
     last_sync_time := Some 1000; sync_deletions := true;
     sync_callbacks := 1; callback_runs := 0;
     app_github_sync := gh_configured; backup_queue := [] |}.

(** ** The decision table of the startup sync *)

(** The decision table as the specification words it. *)
Module Spec.
Inductive Branch :=
  | Upload
  | Download
  | SmartMerge (localTime remoteTime : Z).

(** remote absent: upload; remote present, local absent: download; both
    present: smart merge. *)
Definition decision (localTime remoteTime : option Z) : Branch :=
  match remoteTime, localTime with
  | None, _ => Upload
  | Some _, None => Download
  | Some r, Some l => SmartMerge l r
  end.


Definition insert_each (snapshot : list Reflection) (store : gmap Z Cols)
    : gmap Z Cols :=
  foldl (λ t r, <[r_id r := import_cols r]> t) store snapshot.

End Spec.

(** What the code runs for a branch of the table. *)
Definition run_branch (b : Spec.Branch) : M unit :=
  match b with
  | Spec.Upload => sync_to_github;; mret ()
  | Spec.Download => sync_from_github;; mret ()
  | Spec.SmartMerge l r => _smart_merge l r
  end.

(** The end of a session of [sync_on_startup]: the time of the last sync
    is set and saved. *)
Definition record_sync (w : State) : State :=
  set_sync_state_file (Some (Some (clock w)))
    (set_last_sync_time (Some (clock w)) w).

(** ** Export and import of a snapshot *)

(** A row as it comes back from an export followed by an import: the
    embedding is gone, tags that were NULL are the empty list. *)
Definition as_exported (c : Cols) : Cols :=
  {| content := content c;
     summary := summary c;
     tags := tags_str (tags c);
     category := category c;
     created_at := created_at c;
     updated_at := updated_at c;
     type := type c;
     embedding := None |}.

(** The row that an entry of a snapshot is inserted as. *)
Definition as_row (r : Reflection) : Z * Cols := (r_id r, import_cols r).

Definition uploaded (w : State) : RemoteFile :=
  {| rf_content := export_to_json (clock w) (table w);
     rf_commits := clock w :: from_option rf_commits [] (backups w !! month w) |}.

(** The state after the download of the merge, and the state the re-upload
    starts from. *)
Definition downloaded (rs : list Reflection) (w : State) : State :=
  set_table (λ _, list_to_map (as_row <$> rs)) (set_api GetContentsRoot w).

Definition restored (rs : list Reflection) (w : State) : State :=
  set_table
    (restore (dict_by_id (reflections (export_to_json (clock w) (table w))))
       (elements (dom (table w) ∖ list_to_set (r_id <$> rs) : gset Z)))
    (downloaded rs w).

(** Local ids 1, 2, 3, record 1 with an embedding; the latest remote
    snapshot, written after the last local change, has ids 2, 3, 4;
    deletion-sync is disabled. *)
Definition merge_state : State :=
  {| table := <[1 := a_row 100 (Some [Byte.x01; Byte.x02])]>
                (<[2 := a_row 200 None]> (<[3 := a_row 300 None]> ∅));
     sync_log := []; sync_state_file := Some (Some 1000);
     backups := <[202611 :=
       {| rf_content :=
            {| export_time := 4000; total_count := 3;
               reflections := [export_row 2 (a_row 200 None);
                               export_row 3 (a_row 300 None);
                               export_row 4 (a_row 3900 None)] |};
          rf_commits := [4000] |}]> ∅;
     deleted_records := ∅;
     clock := 5000; month := 202611; faults := []; api_trace := [];
     github_sync := gh_configured; is_syncing := false;
     last_sync_time := Some 1000; sync_deletions := false;
     sync_callbacks := 1; callback_runs := 0;
     app_github_sync := gh_configured; backup_queue := [] |}.

(** The same with deletion-sync enabled. *)
Definition merge_state_propagating : State :=
  {| table := table merge_state; sync_log := [];
     sync_state_file := Some (Some 1000);
     backups := backups merge_state; deleted_records := ∅;
     clock := 5000; month := 202611; faults := []; api_trace := [];
     github_sync := gh_configured; is_syncing := false;
     last_sync_time := Some 1000; sync_deletions := true;
     sync_callbacks := 1; callback_runs := 0;
     app_github_sync := gh_configured; backup_queue := [] |}.

(** ** The deletion-backup queue *)

(** The transition system as a function: one action of a thread, when it
    is enabled. *)
Inductive Action :=
  | DoEnqueue (job : Reflection)
  | DoGet
  | DoBegin
  | DoEnd
  | DoManualSync (direction : string)
  | DoTick.

Definition exec (a : Action) (s : System) : option System :=
  match a, worker s with
  | DoEnqueue job, _ =>
      match backup_deleted_record job (st s) with
      | (Ret b, w') =>
          Some {| st := w'; worker := worker s;
                  events := events s ++ [Enqueue job b] |}
      | _ => None
      end
  | DoGet, AtGet =>
      match backup_queue (st s) with
      | job :: q =>
          Some {| st := set_backup_queue (λ _, q) (st s); worker := Got job;
                  events := events s |}
      | [] => None
      end
  | DoBegin, Got job =>
      Some {| st := st s; worker := InBackup job;
              events := events s ++ [WriteBegin job] |}
  | DoEnd, InBackup job =>
      match _do_backup_to_github job (st s) with
      | (Ret b, w') =>
          Some {| st := w'; worker := AtGet;
                  events := events s ++ [WriteEnd job b] |}
      | _ => None
      end
  | DoManualSync direction, _ =>
      match manual_sync direction (st s) with
      | (Ret b, w') =>
          Some {| st := w'; worker := worker s; events := events s |}
      | _ => None
      end
  | DoTick, _ =>
      match sync_tick (st s) with
      | (Ret _, w') =>
          Some {| st := w'; worker := worker s; events := events s |}
      | _ => None
      end
  | _, _ => None
  end.

Fixpoint run (acts : list Action) (s : System) : option System :=
  match acts with
  | [] => Some s
  | a :: acts' =>
      match exec a s with
      | Some s' => run acts' s'
      | None => None
      end
  end.

(** The job that the worker took from the queue and has not begun to
    write; the job that it is writing. *)
Definition held (k : Worker) : list Reflection :=
  match k with Got job => [job] | _ => [] end.

Definition writing (k : Worker) : list Reflection :=
  match k with InBackup job => [job] | _ => [] end.

(** What the queue discipline rests on in the state. *)
Definition queue_view (w : State) :=
  (backup_queue w, app_github_sync w, backup_calls (api_trace w)).

(** The invariant of the queue: the accepted jobs are those whose write was
    begun, then the job in the hands of the worker, then the jobs in the
    queue, in this order; the writes begun are the writes ended and the one
    the worker is in; the files that the remote was asked to create are
    those of the writes ended; a job is around only when the remote is
    configured. *)
Definition queue_inv (s : System) : Prop :=
  enqueued (events s)
    = written (events s) ++ held (worker s) ++ backup_queue (st s)
  ∧ written (events s) = ended (events s) ++ writing (worker s)
  ∧ backup_calls (api_trace (st s)) = ended (events s)
  ∧ (worker s ≠ AtGet ∨ backup_queue (st s) ≠ [] →
     is_configured (app_github_sync (st s)) = true).

(** Two deletions are enqueued, A then B, while the worker writes A. *)
Definition job_A : Reflection := export_row 1 (a_row 100 None).
Definition job_B : Reflection := export_row 2 (a_row 200 None).

Definition started : System :=
  {| st := fresh_state; worker := AtGet; events := [] |}.

Definition schedule : list Action :=
  [DoEnqueue job_A; DoGet; DoBegin; DoEnqueue job_B; DoTick; DoEnd;
   DoManualSync "upload"; DoGet; DoBegin; DoEnd].

Definition after_schedule : System :=
  default started (run schedule started).

(** * The code around the claims *)

(** ** Database (database.py) *)

(** The keyword arguments that the application passes to
    [update_reflection]; a key that is not passed is [None].  A list of tags
    is stored as its JSON text, an array as its bytes. *)
Record Update := {
  u_content   : option string;
  u_summary   : option (option string);
  u_tags      : option (option (list string));
  u_category  : option (option string);
  u_type      : option (option string);
  u_embedding : option (option (list Byte.byte))
}.

(** [not update_fields] *)
Definition no_kwargs (u : Update) : bool :=
  match u_content u, u_summary u, u_tags u, u_category u, u_type u,
        u_embedding u with
  | None, None, None, None, None, None => true
  | _, _, _, _, _, _ => false
  end.

(** [UPDATE reflections SET ..., updated_at = CURRENT_TIMESTAMP] on one
    row. *)
Definition set_columns (now : Z) (u : Update) (c : Cols) : Cols :=
  {| content := default (content c) (u_content u);
     summary := default (summary c) (u_summary u);
     tags := default (tags c) (u_tags u);
     category := default (category c) (u_category u);
     created_at := created_at c;
     updated_at := now;
     type := default (type c) (u_type u);
     embedding := default (embedding c) (u_embedding u) |}.

Definition update_reflection (i : Z) (u : Update) : M unit :=
  if no_kwargs u then mret ()
  else modify (λ w, set_table (alter (set_columns (clock w) u) i) w).

(** The second definition of [delete_reflection] in the class, which is
    the one in force: True when a row was deleted. *)
Definition delete_reflection (reflection_id : Z) : M bool :=
  λ w, match table w !! reflection_id with
       | Some _ => (Ret true, set_table (delete reflection_id) w)
       | None => (Ret false, w)
       end.

(** ** GitHubSync and SyncManager, the remaining methods *)

(** [SELECT * FROM sync_log ORDER BY last_sync_at DESC LIMIT 1]; among rows
    of one time, which SQL leaves open, the earlier row. *)
Definition latest_log (l : list (Z * SyncStatus * string))
    : option (Z * SyncStatus * string) :=
  foldl (λ acc row,
           match acc with
           | None => Some row
           | Some best => if decide (best.1.1 < row.1.1) then Some row
                          else Some best
           end) None l.

Definition get_last_sync_info : M (option (Z * SyncStatus * string)) :=
  gets (λ w, latest_log (sync_log w)).

(** [SyncManager.__init__] on the files that an earlier run has left: the
    time of the last sync is read from the state file. *)
Definition SyncManager_init (gh : GitHubSync) (deletions : bool) (w : State)
    : State :=
  {| table := table w; sync_log := sync_log w;
     sync_state_file := sync_state_file w; backups := backups w;
     deleted_records := deleted_records w; clock := clock w; month := month w;
     faults := faults w; api_trace := api_trace w;
     github_sync := gh; is_syncing := false;
     last_sync_time := _load_last_sync_time w; sync_deletions := deletions;
     sync_callbacks := 0; callback_runs := callback_runs w;
     app_github_sync := app_github_sync w; backup_queue := backup_queue w |}.

(** The entries of [get_sync_status] that the state holds; the fourth,
    [auto_sync_enabled], is about the thread of [_sync_loop]. *)
Record SyncStatusInfo := {
  s_is_configured  : bool;
  s_is_syncing     : bool;
  s_last_sync_time : option Z
}.

Definition get_sync_status (w : State) : SyncStatusInfo :=
  {| s_is_configured := is_configured (github_sync w);
     s_is_syncing := is_syncing w;
     s_last_sync_time := last_sync_time w |}.

(** ** ReflectionJournalApp (main.py), the remaining methods *)

(** The thread of [delete_with_backup]: the row is deleted, then the
    record is handed to the backup queue. *)
Definition delete_with_backup (reflection : Reflection) : M unit :=
  try_except
    (success ← delete_reflection (r_id reflection);
     if (success : bool) then backup_deleted_record reflection;; mret ()
     else mret ())
    (λ _, mret ()).

Inductive Color := BLUE_600 | GREEN_600 | GREY_600.

(** The age of the last sync as the status line words it. *)
Inductive Ago :=
  | JustNow
  | MinutesAgo (n : Z)
  | HoursAgo (n : Z)
  | DaysAgo (n : Z).

Definition ago (total_seconds : Z) : Ago :=
  if decide (total_seconds < 60) then JustNow
  else if decide (total_seconds < 3600) then MinutesAgo (total_seconds / 60)
  else if decide (total_seconds < 86400) then HoursAgo (total_seconds / 3600)
  else DaysAgo (total_seconds / 86400).

Definition ago_text (a : Ago) : string :=
  match a with
  | JustNow => "刚刚同步"
  | MinutesAgo n => pretty n +:+ "分钟前同步"
  | HoursAgo n => pretty n +:+ "小时前同步"
  | DaysAgo n => pretty n +:+ "天前同步"
  end.

Definition create_sync_status_text (w : State) : string * Color :=
  let status := get_sync_status w in
  if s_is_syncing status then ("正在同步...", BLUE_600)
  else match s_last_sync_time status with
       | Some last => (ago_text (ago (clock w - last)), GREEN_600)
       | None =>
           if is_configured (github_sync w) then ("从未同步", GREY_600)
           else ("未配置同步", GREY_600)
       end.

Definition update_sync_status (w : State) : string * Color :=
  let status := get_sync_status w in
  if s_is_syncing status then ("正在同步...", BLUE_600)
  else match s_last_sync_time status with
       | Some last => (ago_text (ago (clock w - last)), GREEN_600)
       | None =>
           if s_is_configured status then ("从未同步", GREY_600)
           else ("未配置同步", GREY_600)
       end.

(** ** Definitions for the further statements *)

(** The time of the last sync on disk is the one in memory. *)
Definition persisted (w : State) : Prop :=
  _load_last_sync_time w = last_sync_time w.

(** The periodic tick is due. *)
Definition due (w : State) : Prop :=
  ∃ lm ls, max_updated_at (table w) = Some lm
           ∧ last_sync_time w = Some ls ∧ ls < lm.

(** ** Further states for the examples *)

(** The snapshot of the repository of [merge_state]: ids 2, 3, 4. *)
Definition remote_snapshot : Snapshot :=
  {| export_time := 4000; total_count := 3;
     reflections := [export_row 2 (a_row 200 None);
                     export_row 3 (a_row 300 None);
                     export_row 4 (a_row 3900 None)] |}.

(** What a sync session records when it ends. *)
Definition session_view (w : State) :=
  (last_sync_time w, sync_state_file w, callback_runs w, sync_callbacks w,
   clock w).

(** A store with a row edited at 4000, after the last sync at 1000, and the
    network down. *)
Definition edited_state : State :=
  {| table := <[1 := a_row 100 None]> (<[2 := a_row 4000 None]> ∅);
     sync_log := []; sync_state_file := Some (Some 1000);
     backups := backups offline_state; deleted_records := ∅;
     clock := 5000; month := 202611;
     faults := replicate 8 (Some RequestException); api_trace := [];
     github_sync := gh_configured; is_syncing := false;
     last_sync_time := Some 1000; sync_deletions := true;
     sync_callbacks := 1; callback_runs := 0;
     app_github_sync := gh_configured; backup_queue := [] |}.

(** The keyword arguments of an edit of the summary. *)
Definition only_summary (text : string) : Update :=
  {| u_content := None; u_summary := Some (Some text); u_tags := None;
     u_category := None; u_type := None; u_embedding := None |}.

(** The worker about to take the first of two queued deletions. *)
Definition two_queued : System :=
  {| st := set_backup_queue (λ _, [export_row 1 (a_row 100 None);
                                   export_row 2 (a_row 200 None)])
             fresh_state;
     worker := AtGet; events := [] |}.

(** The run of [schedule] up to the end of the first write. *)
Definition after_first_write : System :=
  default started
    (run [DoEnqueue job_A; DoGet; DoBegin; DoEnqueue job_B; DoTick; DoEnd]
       started).

(** The state of [merge_state] when the first call to the remote fails and
    the later ones succeed. *)
Definition flaky_state : State :=
  {| table := table merge_state; sync_log := [];
     sync_state_file := Some (Some 1000);
     backups := backups merge_state; deleted_records := ∅;
     clock := 5000; month := 202611;
     faults := [Some RequestException]; api_trace := [];
     github_sync := gh_configured; is_syncing := false;
     last_sync_time := Some 1000; sync_deletions := true;
     sync_callbacks := 1; callback_runs := 0;
     app_github_sync := gh_configured; backup_queue := [] |}.

(** * Properties *)

(** ** Reasoning about computations *)

#[global] Instance keeps_preorder {B} (f : State → B) : PreOrder (keeps f).
Proof.
  split; [intros w; reflexivity | intros a b c Hab Hbc].
  unfold keeps in *. congruence.
Qed.

Section Structural.
Context {A B : Type} (R : relation State) `{!PreOrder R}.

Lemma stable_ret (a : A) : stable R (mret a).
Proof. intros w. reflexivity. Qed.

Lemma stable_raise (e : exn) : stable R (raise (A:=A) e).
Proof. intros w. reflexivity. Qed.

Lemma stable_gets (f : State → A) : stable R (gets f).
Proof. intros w. reflexivity. Qed.

Lemma stable_modify (g : State → State) :
  (∀ w, R w (g w)) → stable R (modify g).
Proof. intros Hg w. apply Hg. Qed.

Lemma stable_bind (m : M A) (k : A → M B) :
  stable R m → (∀ a, stable R (k a)) → stable R (m ≫= k).
Proof.
  intros Hm Hk w. unfold mbind, M_bind, bind.
  specialize (Hm w). destruct (m w) as [[a|e] w1]; simpl in *.
  - etransitivity; [exact Hm | apply Hk].
  - exact Hm.
Qed.

Lemma stable_try_except (m : M A) (h : exn → M A) :
  stable R m → (∀ e, stable R (h e)) → stable R (try_except m h).
Proof.
  intros Hm Hh w. unfold try_except.
  specialize (Hm w). destruct (m w) as [[a|e] w1]; simpl in *.
  - exact Hm.
  - etransitivity; [exact Hm | apply Hh].
Qed.

Lemma stable_try_except_github (m h : M A) :
  stable R m → stable R h → stable R (try_except_github m h).
Proof.
  intros Hm Hh w. unfold try_except_github.
  specialize (Hm w). destruct (m w) as [[a|[]] w1]; simpl in *;
    try exact Hm.
  etransitivity; [exact Hm | apply Hh].
Qed.

Lemma stable_try_finally (m : M A) (f : State → State) :
  stable R m → (∀ w, R w (f w)) → stable R (try_finally m f).
Proof.
  intros Hm Hf w. unfold try_finally.
  specialize (Hm w). destruct (m w) as [r w1]; simpl in *.
  etransitivity; [exact Hm | apply Hf].
Qed.
End Structural.

Section Returns.
Context {A B : Type}.

Lemma no_raise_ret (a : A) : no_raise (mret a).
Proof. intros w. by exists a. Qed.

Lemma no_raise_gets (f : State → A) : no_raise (gets f).
Proof. intros w. by eexists. Qed.

Lemma no_raise_modify (g : State → State) : no_raise (modify g).
Proof. intros w. by eexists. Qed.

Lemma no_raise_bind (m : M A) (k : A → M B) :
  no_raise m → (∀ a, no_raise (k a)) → no_raise (m ≫= k).
Proof.
  intros Hm Hk w. unfold mbind, M_bind, bind.
  destruct (Hm w) as [a Ha]. destruct (m w) as [r w1]; simpl in *; subst.
  apply Hk.
Qed.

Lemma no_raise_try_except (m : M A) (h : exn → M A) :
  (∀ e, no_raise (h e)) → no_raise (try_except m h).
Proof.
  intros Hh w. unfold try_except.
  destruct (m w) as [[a|e] w1]; simpl; [by eexists | apply Hh].
Qed.

Lemma no_raise_try_finally (m : M A) (f : State → State) :
  no_raise m → no_raise (try_finally m f).
Proof.
  intros Hm w. unfold try_finally.
  destruct (Hm w) as [a Ha]. destruct (m w) as [r w1]; simpl in *.
  by exists a.
Qed.
End Returns.

Create HintDb stable discriminated.
Create HintDb returns discriminated.

Ltac stable_step :=
  lazymatch goal with
  | |- stable _ (mret _) => apply stable_ret; apply _
  | |- stable _ (gets _) => apply stable_gets; apply _
  | |- stable _ (modify _) => apply stable_modify; intros; reflexivity
  | |- stable _ (_ ≫= _) => apply stable_bind; [apply _ | | intros ?]
  | |- stable _ (try_except _ _) =>
      apply stable_try_except; [apply _ | | intros ?]
  | |- stable _ (try_except_github _ _) =>
      apply stable_try_except_github; [apply _ | | ]
  | |- stable _ (try_finally _ _) =>
      apply stable_try_finally; [apply _ | | intros; reflexivity]
  | |- stable _ (if ?b then _ else _) => destruct b
  | |- stable _ (match ?x with _ => _ end) => destruct x
  | |- stable (keeps _) _ =>
      let w := fresh "w" in
      intros w; unfold keeps; cbn; repeat case_match; reflexivity
  end.

Ltac stable_solve :=
  repeat (first [ solve [auto with stable] | stable_step ]).

Ltac returns_step :=
  lazymatch goal with
  | |- no_raise (mret _) => apply no_raise_ret
  | |- no_raise (gets _) => apply no_raise_gets
  | |- no_raise (modify _) => apply no_raise_modify
  | |- no_raise (_ ≫= _) => apply no_raise_bind; [ | intros ?]
  | |- no_raise (try_except _ _) => apply no_raise_try_except; intros ?
  | |- no_raise (try_finally _ _) => apply no_raise_try_finally
  | |- no_raise (if ?b then _ else _) => destruct b
  | |- no_raise (match ?x with _ => _ end) => destruct x
  end.

Ltac returns_solve :=
  repeat (first [ solve [auto with returns] | returns_step ]).

Lemma sync_to_github_settings : stable (keeps settings) sync_to_github.
Proof.
  unfold sync_to_github, get_contents, update_file, create_file, api_call,
    _update_sync_log.
  stable_solve.
Qed.
#[global] Hint Resolve sync_to_github_settings : stable.

Lemma sync_from_github_settings : stable (keeps settings) sync_from_github.
Proof.
  unfold sync_from_github, get_contents_root, api_call, _import_from_json.
  stable_solve.
Qed.
#[global] Hint Resolve sync_from_github_settings : stable.

Lemma _get_remote_last_modified_settings :
  stable (keeps settings) _get_remote_last_modified.
Proof.
  unfold _get_remote_last_modified, get_contents_root, get_commits, api_call.
  stable_solve.
Qed.
#[global] Hint Resolve _get_remote_last_modified_settings : stable.

Lemma _merge_from_remote_settings : stable (keeps settings) _merge_from_remote.
Proof.
  unfold _merge_from_remote, _export_local_data. stable_solve.
Qed.
#[global] Hint Resolve _merge_from_remote_settings : stable.

Lemma sync_on_startup_settings : stable (keeps settings) sync_on_startup.
Proof.
  unfold sync_on_startup, _smart_merge, _get_local_last_modified,
    _save_last_sync_time.
  stable_solve.
Qed.
#[global] Hint Resolve sync_on_startup_settings : stable.

Lemma sync_to_github_returns : no_raise sync_to_github.
Proof. unfold sync_to_github, _update_sync_log. returns_solve. Qed.
#[global] Hint Resolve sync_to_github_returns : returns.

Lemma sync_from_github_returns : no_raise sync_from_github.
Proof. unfold sync_from_github. returns_solve. Qed.
#[global] Hint Resolve sync_from_github_returns : returns.

Lemma _get_remote_last_modified_returns : no_raise _get_remote_last_modified.
Proof. unfold _get_remote_last_modified. returns_solve. Qed.
#[global] Hint Resolve _get_remote_last_modified_returns : returns.

Lemma _merge_from_remote_returns : no_raise _merge_from_remote.
Proof. unfold _merge_from_remote, _export_local_data. returns_solve. Qed.
#[global] Hint Resolve _merge_from_remote_returns : returns.

Lemma _smart_merge_returns lt rt : no_raise (_smart_merge lt rt).
Proof. unfold _smart_merge. returns_solve. Qed.
#[global] Hint Resolve _smart_merge_returns : returns.

Lemma sync_on_startup_returns : no_raise sync_on_startup.
Proof. unfold sync_on_startup. returns_solve. Qed.
#[global] Hint Resolve sync_on_startup_returns : returns.

(** A computation of type [M unit] that returns, returns [()]. *)
Lemma returns_unit (m : M unit) w : no_raise m → m w = (Ret (), (m w).2).
Proof.
  intros Hm. destruct (Hm w) as [[] Ha].
  destruct (m w) as [r w1]; simpl in *. by subst.
Qed.

(** ** Single-flight sync *)

(** C5. A call of [manual_sync] made while a session is active returns
    false at once: it starts no session and the whole state, with
    LocalStore, the remote store and the time of the last sync (in memory
    and in the state file), is as it was. *)
Theorem manual_sync_while_syncing (direction : string) (w : State) :
  is_syncing w = true →
  manual_sync direction w = (Ret false, w).
Proof.
  intros Hbusy. unfold manual_sync, mbind, M_bind, bind, gets. simpl.
  by rewrite Hbusy.
Qed.

Lemma manual_sync_while_syncing_witness :
  manual_sync "both" (set_is_syncing true fresh_state)
  = (Ret false, set_is_syncing true fresh_state).
Proof. apply manual_sync_while_syncing. reflexivity. Defined.

(** ** The decision table of the startup sync *)

Lemma run_branch_returns b : no_raise (run_branch b).
Proof. destruct b; simpl; returns_solve. Qed.



Lemma is_configured_repo gh : is_configured gh = true → repo gh = true.
Proof. unfold is_configured. intros H. by apply andb_prop in H as [_ ?]. Qed.

(** The upload when nothing fails: the export of LocalStore is written to
    the file of the current month. *)
Lemma sync_to_github_ok w :
  is_configured (github_sync w) = true →
  faults w = [] →
  ∃ w', sync_to_github w = (Ret true, w')
        ∧ table w' = table w
        ∧ backups w' = <[month w := uploaded w]> (backups w)
        ∧ (∃ c, (c = UpdateFile (month w) (export_to_json (clock w) (table w))
                 ∨ c = CreateFile (month w) (export_to_json (clock w) (table w)))
                ∧ c ∈ api_trace w').
Proof.
  intros Hconf Hfaults.
  unfold sync_to_github, get_contents, update_file, create_file, api_call,
    _update_sync_log, try_except_github, mbind, M_bind, bind, gets, modify,
    try_except. simpl.
  rewrite Hconf. simpl. rewrite (is_configured_repo _ Hconf), Hfaults. simpl.
  unfold uploaded.
  destruct (backups w !! month w) as [f|] eqn:Hfile; simpl.
  - rewrite ?Hfaults. simpl. rewrite Hfile. simpl. eexists. split; [reflexivity|]. simpl.
    split_and!; [done | done |]. eexists. split; [by left|]. set_solver.
  - rewrite ?Hfaults. simpl. rewrite Hfile. simpl. eexists. split; [reflexivity|]. simpl.
    split_and!; [done | done |]. eexists. split; [by right|]. set_solver.
Qed.

(** [manual_sync] with direction both is a session of [sync_on_startup]
    between the setting and the clearing of [is_syncing]. *)
Lemma manual_sync_both_run (w : State) :
  is_syncing w = false →
  manual_sync "both" w =
    let w1 := (sync_on_startup (set_is_syncing true w)).2 in
    (Ret true,
     set_is_syncing false
       (set_callback_runs (callback_runs w1 + sync_callbacks w1)%nat
          (record_sync w1))).
Proof.
  intros Hidle.
  pose proof (returns_unit sync_on_startup (set_is_syncing true w)
                sync_on_startup_returns) as Hrun.
  unfold manual_sync, mbind, M_bind, bind, gets, modify, try_finally.
  simpl. rewrite Hidle. simpl. rewrite Hrun. reflexivity.
Qed.

Lemma sync_on_startup_run (w : State) :
  ∃ remote_time,
    (_get_remote_last_modified w).1 = Ret remote_time
    ∧ sync_on_startup w =
        (Ret (),
         record_sync
           (run_branch
              (Spec.decision (max_updated_at (table w)) remote_time)
              (_get_remote_last_modified w).2).2).
Proof.
  destruct (_get_remote_last_modified_returns w) as [remote_time Hrt].
  exists remote_time. split; [done|].
  unfold sync_on_startup, try_except, mbind, M_bind, bind,
    _get_local_last_modified, gets at 1. simpl.
  destruct (_get_remote_last_modified w) as [r w1]. simpl in *. subst r.
  pose proof (returns_unit _ w1
    (run_branch_returns
       (Spec.decision (max_updated_at (table w)) remote_time))) as Hrun.
  destruct remote_time as [rt|], (max_updated_at (table w)) as [lt|];
    simpl in *; unfold mbind, M_bind, bind in *.
  - rewrite Hrun. reflexivity.
  - destruct (sync_from_github w1) as [[b|e] w2]; simpl in *;
      [reflexivity | discriminate Hrun].
  - destruct (sync_to_github w1) as [[b|e] w2]; simpl in *;
      [reflexivity | discriminate Hrun].
  - destruct (sync_to_github w1) as [[b|e] w2]; simpl in *;
      [reflexivity | discriminate Hrun].
Qed.


(** ** The no-op of the smart merge *)

Lemma smart_merge_close_times (local_time remote_time : Z) (w : State) :
  Z.abs (local_time - remote_time) < 60 →
  _smart_merge local_time remote_time w = (Ret (), w).
Proof.
  intros Hclose. unfold _smart_merge. by rewrite decide_True.
Qed.

(** C3. When the local and the remote time of last modification are less
    than 60 seconds apart, the smart merge returns without a change: the
    state after it, LocalStore and the remote store in it, is the state
    before it. *)
Theorem smart_merge_within_tolerance (local_time remote_time : Z) (w : State) :
  Z.abs (local_time - remote_time) < 60 →
  _smart_merge local_time remote_time w = (Ret (), w)
  ∧ table (_smart_merge local_time remote_time w).2 = table w
  ∧ sync_log (_smart_merge local_time remote_time w).2 = sync_log w
  ∧ backups (_smart_merge local_time remote_time w).2 = backups w
  ∧ deleted_records (_smart_merge local_time remote_time w).2
    = deleted_records w.
Proof.
  intros Hclose. by rewrite smart_merge_close_times.
Qed.

Lemma smart_merge_within_tolerance_witness :
  _smart_merge 1000 1059 fresh_state = (Ret (), fresh_state).
Proof. apply (smart_merge_within_tolerance 1000 1059 fresh_state). lia. Defined.

Lemma _get_remote_last_modified_stores :
  stable (keeps stores) _get_remote_last_modified.
Proof.
  unfold _get_remote_last_modified, get_contents_root, get_commits, api_call.
  stable_solve.
Qed.

(** The whole startup sync in the case of C3: it reads the two times, finds
    them close, and writes the time of the sync only. *)
Lemma sync_on_startup_within_tolerance (w : State) (local_time remote_time : Z) :
  max_updated_at (table w) = Some local_time →
  (_get_remote_last_modified w).1 = Ret (Some remote_time) →
  Z.abs (local_time - remote_time) < 60 →
  stores (sync_on_startup w).2 = stores w.
Proof.
  intros Hlocal Hremote Hclose.
  destruct (sync_on_startup_run w) as (rt & Hrt & ->).
  rewrite Hremote in Hrt. injection Hrt as <-.
  rewrite Hlocal. simpl. rewrite smart_merge_close_times by done.
  simpl. apply (_get_remote_last_modified_stores w).
Qed.

(** ** manual_sync with direction both *)

(** C9. A call of [manual_sync] with direction both, made while no session
    is active, returns true, and the time of the last sync is set to the
    time of the call in memory and in the state file, whatever the script
    of faults makes of the calls to the remote. *)
Theorem manual_sync_both_returns_true (w : State) :
  is_syncing w = false →
  ∃ w', manual_sync "both" w = (Ret true, w')
        ∧ last_sync_time w' = Some (clock w)
        ∧ sync_state_file w' = Some (Some (clock w))
        ∧ _load_last_sync_time w' = Some (clock w)
        ∧ is_syncing w' = false.
Proof.
  intros Hidle.
  pose proof (sync_on_startup_settings (set_is_syncing true w)) as Hset.
  rewrite (manual_sync_both_run w Hidle). simpl.
  eexists. split; [reflexivity|].
  unfold keeps, settings in Hset. simpl in Hset.
  assert (clock (sync_on_startup (set_is_syncing true w)).2 = clock w)
    as Hclock by congruence.
  unfold _load_last_sync_time. simpl. by rewrite Hclock.
Qed.

Lemma manual_sync_both_returns_true_witness :
  ∃ w', manual_sync "both" offline_state = (Ret true, w')
        ∧ last_sync_time w' = Some (clock offline_state)
        ∧ sync_state_file w' = Some (Some (clock offline_state))
        ∧ _load_last_sync_time w' = Some (clock offline_state)
        ∧ is_syncing w' = false.
Proof. apply (manual_sync_both_returns_true offline_state). reflexivity. Defined.

(** ** Failure of the remote and the time of the last sync *)

(** The paths of [manual_sync] that look at the result of the remote
    operation: when the upload or the download reports failure, the call
    returns false and the time of the last sync stays, in memory and in the
    state file. *)
Lemma sync_to_github_last_sync :
  stable (keeps (λ w, (last_sync_time w, sync_state_file w))) sync_to_github.
Proof.
  unfold sync_to_github, get_contents, update_file, create_file, api_call,
    _update_sync_log.
  stable_solve.
Qed.

Lemma sync_from_github_last_sync :
  stable (keeps (λ w, (last_sync_time w, sync_state_file w))) sync_from_github.
Proof.
  unfold sync_from_github, get_contents_root, api_call, _import_from_json.
  stable_solve.
Qed.

Lemma manual_sync_upload_failure (w : State) :
  is_syncing w = false →
  (sync_to_github (set_is_syncing true w)).1 = Ret false →
  let r := manual_sync "upload" w in
  r.1 = Ret false
  ∧ last_sync_time r.2 = last_sync_time w
  ∧ sync_state_file r.2 = sync_state_file w.
Proof.
  intros Hidle Hfail.
  pose proof (sync_to_github_last_sync (set_is_syncing true w)) as Hkeep.
  unfold manual_sync, mbind, M_bind, bind, gets, modify, try_finally.
  simpl. rewrite Hidle. simpl.
  destruct (sync_to_github (set_is_syncing true w)) as [r w1].
  simpl in *. subst r. simpl.
  unfold keeps in Hkeep. simpl in Hkeep. by simplify_eq.
Qed.

Lemma manual_sync_download_failure (w : State) :
  is_syncing w = false →
  (sync_from_github (set_is_syncing true w)).1 = Ret false →
  let r := manual_sync "download" w in
  r.1 = Ret false
  ∧ last_sync_time r.2 = last_sync_time w
  ∧ sync_state_file r.2 = sync_state_file w.
Proof.
  intros Hidle Hfail.
  pose proof (sync_from_github_last_sync (set_is_syncing true w)) as Hkeep.
  unfold manual_sync, mbind, M_bind, bind, gets, modify, try_finally.
  simpl. rewrite Hidle. simpl.
  destruct (sync_from_github (set_is_syncing true w)) as [r w1].
  simpl in *. subst r. simpl.
  unfold keeps in Hkeep. simpl in Hkeep. by simplify_eq.
Qed.

(** C1. The startup sync with the network down: the read of the remote
    time raises and is taken for an empty remote, the upload raises and
    [sync_to_github] logs the error and returns False; the repository is as
    it was.  The result of the upload is not looked at: the time of the
    last sync moves from 1000 to the time of the call, in memory and in the
    state file, and [manual_sync] with direction both returns True. *)
Theorem startup_sync_failure_moves_last_sync_time :
  let w' := (sync_on_startup offline_state).2 in
  (start_auto_sync offline_state).2 = w'
  ∧ api_trace w' = [GetContentsRoot; GetContents 202611]
  ∧ sync_log w' = [(5000, StError, "RequestException")]
  ∧ backups w' = backups offline_state
  ∧ _load_last_sync_time offline_state = Some 1000
  ∧ last_sync_time w' = Some 5000
  ∧ _load_last_sync_time w' = Some 5000
  ∧ (manual_sync "both" offline_state).1 = Ret true
  ∧ _load_last_sync_time (manual_sync "both" offline_state).2 = Some 5000.
Proof. vm_compute. repeat split; reflexivity. Qed.

(** ** The periodic tick *)

(** C10. A periodic tick uploads only when the local store has a time of
    last modification, a time of the last sync is recorded, and the first
    is strictly later than the second.  In every other case, so whenever no
    sync was ever recorded, the tick makes no call to the remote and
    changes nothing. *)
Theorem sync_tick_uploads_only_when_due (w : State) :
  ¬ (∃ lm ls, max_updated_at (table w) = Some lm
              ∧ last_sync_time w = Some ls ∧ ls < lm) →
  sync_tick w = (Ret (), w).
Proof.
  intros Hnot.
  unfold sync_tick, mbind, M_bind, bind, gets, modify, try_finally,
    try_except, _get_local_last_modified.
  simpl. destruct (is_syncing w) eqn:Hbusy; [done|]. simpl.
  assert (set_is_syncing false (set_is_syncing true w) = w) as Hsame
    by (destruct w; simpl in *; by subst).
  destruct (max_updated_at (table w)) as [lm|] eqn:Hlm; simpl;
    [|by rewrite Hsame].
  destruct (last_sync_time w) as [ls|] eqn:Hls; simpl; [|by rewrite Hsame].
  destruct (decide (lm > ls)) as [Hgt|Hle]; simpl; [|by rewrite Hsame].
  exfalso. apply Hnot. exists lm, ls. split_and!; [done | done | lia].
Qed.

Lemma sync_tick_uploads_only_when_due_witness :
  last_sync_time fresh_state = None
  ∧ max_updated_at (table fresh_state) = Some 300
  ∧ sync_tick fresh_state = (Ret (), fresh_state).
Proof.
  split; [reflexivity|]. split; [reflexivity|].
  apply (sync_tick_uploads_only_when_due fresh_state).
  intros (lm & ls & _ & Hls & _). discriminate Hls.
Defined.

(** The other direction: an idle tick that finds the store modified after
    the last sync runs [sync_to_github]. *)
Lemma sync_tick_uploads_when_due (w : State) (lm ls : Z) :
  is_syncing w = false →
  max_updated_at (table w) = Some lm →
  last_sync_time w = Some ls →
  ls < lm →
  (sync_tick w).2 =
    let w1 := (sync_to_github (set_is_syncing true w)).2 in
    set_is_syncing false
      (set_callback_runs (callback_runs w1 + sync_callbacks w1)%nat
         (set_sync_state_file (Some (Some (clock w1)))
            (set_last_sync_time (Some (clock w1)) w1))).
Proof.
  intros Hidle Hlm Hls Hlt.
  destruct (sync_to_github_returns (set_is_syncing true w)) as [b Hb].
  unfold sync_tick, mbind, M_bind, bind, gets, modify, try_finally,
    try_except, _get_local_last_modified, _save_last_sync_time,
    _notify_sync_complete.
  simpl. rewrite Hidle. simpl. rewrite Hlm, Hls. simpl.
  rewrite decide_True by lia.
  destruct (sync_to_github (set_is_syncing true w)) as [r w1].
  simpl in *. subst r. reflexivity.
Qed.

(** ** Export and import of a snapshot *)

Lemma import_export_row i c : import_cols (export_row i c) = as_exported c.
Proof. reflexivity. Qed.

Lemma select_all_perm t : select_all t ≡ₚ map_to_list t.
Proof. apply merge_sort_Permutation. Qed.

Lemma export_ids_perm now t :
  r_id <$> reflections (export_to_json now t) ≡ₚ (map_to_list t).*1.
Proof.
  simpl. rewrite <- list_fmap_compose.
  rewrite (select_all_perm t). apply reflexive_eq.
  apply list_fmap_ext. by intros ? [].
Qed.

Lemma export_ids_NoDup now t :
  NoDup (r_id <$> reflections (export_to_json now t)).
Proof. rewrite export_ids_perm. apply NoDup_fst_map_to_list. Qed.

Lemma foldl_insert_union {X V} (key : X → Z) (val : X → V) (l : list X)
    (m : gmap Z V) :
  NoDup (key <$> l) →
  foldl (λ m x, <[key x := val x]> m) m l
  = list_to_map ((λ x, (key x, val x)) <$> l) ∪ m.
Proof.
  revert m. induction l as [|x l IH]; intros m Hnd; simpl.
  - by rewrite (left_id_L ∅ (∪)).
  - apply NoDup_cons in Hnd as [Hx Hnd]. rewrite IH by done.
    rewrite <- insert_union_l. apply eq_sym, insert_union_r.
    apply not_elem_of_list_to_map_1.
    rewrite <- list_fmap_compose. exact Hx.
Qed.

Lemma insert_each_union rs t :
  NoDup (r_id <$> rs) →
  Spec.insert_each rs t = list_to_map (as_row <$> rs) ∪ t.
Proof. apply (foldl_insert_union r_id import_cols). Qed.

Lemma insert_all_fresh rs t :
  NoDup (r_id <$> rs) →
  (∀ r, r ∈ rs → t !! r_id r = None) →
  insert_all rs t = Some (Spec.insert_each rs t).
Proof.
  revert t. induction rs as [|r rs IH]; intros t Hnd Hfresh; simpl; [done|].
  apply NoDup_cons in Hnd as [Hr Hnd].
  rewrite (Hfresh r) by left.
  apply IH; [done|]. intros r' Hr'.
  rewrite lookup_insert_ne; [apply Hfresh; by right|].
  intros Heq. apply Hr. rewrite Heq. by apply list_elem_of_fmap_2.
Qed.

Lemma insert_all_empty rs :
  NoDup (r_id <$> rs) →
  insert_all rs ∅ = Some (list_to_map (as_row <$> rs)).
Proof.
  intros Hnd. rewrite insert_all_fresh by done.
  by rewrite insert_each_union, (right_id_L ∅ (∪)).
Qed.

Lemma export_rows_as_exported now t :
  list_to_map (as_row <$> reflections (export_to_json now t))
  = as_exported <$> t.
Proof.
  simpl. rewrite <- list_fmap_compose.
  rewrite <- (list_to_map_to_list (as_exported <$> t)).
  apply list_to_map_proper.
  - rewrite <- list_fmap_compose.
    rewrite (list_fmap_ext _ fst (select_all t)) by (by intros ? []).
    rewrite (select_all_perm t). apply NoDup_fst_map_to_list.
  - rewrite map_to_list_fmap, (select_all_perm t).
    apply reflexive_eq, list_fmap_ext. by intros ? [].
Qed.

Lemma import_export now t w :
  _import_from_json (export_to_json now t) w
  = (Ret true, set_table (λ _, as_exported <$> t) w).
Proof.
  unfold _import_from_json.
  rewrite insert_all_empty by apply export_ids_NoDup.
  by rewrite export_rows_as_exported.
Qed.

Lemma as_exported_id c :
  embedding c = None → tags c ≠ None → as_exported c = c.
Proof.
  destruct c as [? ? [[|]|] ? ? ? ? ?]; simpl; intros -> Htags; done.
Qed.

(** C8, as the claim states it, fails: a row with an embedding comes back
    from export and import without it. *)
Lemma export_import_drops_embedding :
  let t : gmap Z Cols := {[ 1 := a_row 100 (Some [Byte.x01; Byte.x02]) ]} in
  let w' := (_import_from_json (export_to_json 5000 t)
               (set_table (λ _, ∅) fresh_state)).2 in
  reflections (export_to_json 5000 t)
    = [export_row 1 (a_row 100 (Some [Byte.x01; Byte.x02]))]
  ∧ table w' !! 1 = Some (a_row 100 None)
  ∧ table w' ≠ t.
Proof.
  split; [reflexivity|]. split; [reflexivity|].
  intros Heq. apply (f_equal (λ m : gmap Z Cols, embedding <$> m !! 1)) in Heq.
  vm_compute in Heq. discriminate Heq.
Qed.

(** C8, amended.  A snapshot holds one entry for every row of LocalStore
    and no other, no id twice, with every column of the row but the
    embedding, and [total_count] is their number.  Importing it, into a
    store that is empty or not, succeeds and leaves exactly these rows with
    the same content, summary, category, times and type, with the same tags
    (the empty list where they were NULL) and with no embedding; rows that
    had no embedding and tags that were not NULL are reproduced as they
    were. *)
Theorem export_import_round_trip (now : Z) (t : gmap Z Cols) (w : State) :
  let snapshot := export_to_json now t in
  (∀ r, r ∈ reflections snapshot
        ↔ ∃ c, t !! r_id r = Some c ∧ r = export_row (r_id r) c)
  ∧ NoDup (r_id <$> reflections snapshot)
  ∧ total_count snapshot = length (reflections snapshot)
  ∧ _import_from_json snapshot w
    = (Ret true, set_table (λ _, as_exported <$> t) w)
  ∧ ((∀ i c, t !! i = Some c → embedding c = None ∧ tags c ≠ None) →
     table (_import_from_json snapshot w).2 = t).
Proof.
  split_and!.
  - intros r. simpl. rewrite list_elem_of_fmap. split.
    + intros ([i c] & -> & Hin). rewrite (select_all_perm t) in Hin.
      apply elem_of_map_to_list in Hin. by exists c.
    + intros (c & Hc & Hr). exists (r_id r, c). split; [done|].
      rewrite (select_all_perm t). by apply elem_of_map_to_list.
  - apply export_ids_NoDup.
  - simpl. rewrite length_fmap, (select_all_perm t).
    by rewrite length_map_to_list.
  - apply import_export.
  - intros Hplain. rewrite import_export. simpl.
    apply map_eq. intros i. rewrite lookup_fmap.
    destruct (t !! i) as [c|] eqn:Hi; simpl; [|done].
    destruct (Hplain i c Hi) as [He Ht]. by rewrite as_exported_id.
Qed.

(** ** Merge from the remote *)

(** The greatest name. *)
Lemma max_by_name_foldl (l : list (Z * RemoteFile)) acc :
  match foldl (λ acc f,
                 match acc with
                 | None => Some f
                 | Some g => if decide (g.1 < f.1) then Some f else Some g
                 end) acc l with
  | None => acc = None ∧ l = []
  | Some x => (acc = Some x ∨ x ∈ l)
              ∧ ∀ y, acc = Some y ∨ y ∈ l → y.1 ≤ x.1
  end.
Proof.
  revert acc. induction l as [|f l IH]; intros acc; simpl.
  - destruct acc as [g|]; [|done]. split; [by left|].
    intros y [[= ->]|Hy]; [lia | by apply elem_of_nil in Hy].
  - specialize (IH (match acc with
                    | None => Some f
                    | Some g => if decide (g.1 < f.1) then Some f else Some g
                    end)).
    destruct (foldl _ _ l) as [x|].
    + destruct IH as [Hx Hmax]. split.
      * destruct Hx as [Hx|Hx]; [|right; by right].
        destruct acc as [g|]; [destruct (decide (g.1 < f.1))|];
          simplify_eq; [right; left | by left | right; left].
      * intros y Hy.
        destruct acc as [g|].
        -- destruct (decide (g.1 < f.1)) as [Hlt|Hge].
           ++ destruct Hy as [[= ->]|Hy].
              ** etransitivity; [|apply (Hmax f); by left]. lia.
              ** apply elem_of_cons in Hy as [->|Hy];
                   apply Hmax; [by left | by right].
           ++ destruct Hy as [[= ->]|Hy]; [apply Hmax; by left|].
              apply elem_of_cons in Hy as [->|Hy]; [|apply Hmax; by right].
              etransitivity; [|apply (Hmax g); by left]. lia.
        -- destruct Hy as [[=]|Hy].
           apply elem_of_cons in Hy as [->|Hy];
             apply Hmax; [by left | by right].
    + destruct IH as [Hacc _]. by destruct acc as [g|]; [case_decide|].
Qed.

Lemma max_by_name_Some l x :
  max_by_name l = Some x → x ∈ l ∧ ∀ y, y ∈ l → y.1 ≤ x.1.
Proof.
  intros Hmax. pose proof (max_by_name_foldl l None) as H.
  unfold max_by_name in Hmax. rewrite Hmax in H. destruct H as [Hx Hle].
  split; [by destruct Hx | intros y Hy; apply Hle; by right].
Qed.

Lemma max_by_name_None l : max_by_name l = None → l = [].
Proof.
  intros Hmax. pose proof (max_by_name_foldl l None) as H.
  unfold max_by_name in Hmax. rewrite Hmax in H. by destruct H.
Qed.

(** After a write to the file of a name that no other name exceeds, that
    file is the latest. *)
Lemma max_by_name_insert (m : gmap Z RemoteFile) k f :
  (∀ k', k' ∈ dom m → k' ≤ k) →
  max_by_name (map_to_list (<[k := f]> m)) = Some (k, f).
Proof.
  intros Hle.
  destruct (max_by_name (map_to_list (<[k := f]> m))) as [[k' f']|] eqn:Hmax.
  - apply max_by_name_Some in Hmax as [Hin Hge].
    apply elem_of_map_to_list in Hin.
    assert (k ≤ k') as Hk.
    { apply (Hge (k, f)), elem_of_map_to_list, lookup_insert_eq. }
    destruct (decide (k' = k)) as [->|Hne].
    + rewrite lookup_insert_eq in Hin. by simplify_eq.
    + rewrite lookup_insert_ne in Hin by done.
      assert (k' ≤ k) by (apply Hle, elem_of_dom; by eexists). lia.
  - apply max_by_name_None in Hmax.
    apply map_to_list_empty_iff in Hmax.
    apply (f_equal (lookup k)) in Hmax.
    by rewrite lookup_insert_eq, lookup_empty in Hmax.
Qed.

Lemma max_by_name_bound (m : gmap Z RemoteFile) latest k' :
  max_by_name (map_to_list m) = Some latest → k' ∈ dom m → k' ≤ latest.1.
Proof.
  intros Hmax Hk. apply max_by_name_Some in Hmax as [_ Hge].
  apply elem_of_dom in Hk as [f Hf].
  apply (Hge (k', f)). by apply elem_of_map_to_list.
Qed.

(** The download when nothing fails. *)
Lemma sync_from_github_ok w latest :
  is_configured (github_sync w) = true →
  faults w = [] →
  max_by_name (map_to_list (backups w)) = Some latest →
  NoDup (r_id <$> reflections (rf_content latest.2)) →
  sync_from_github w =
    (Ret true,
     set_table (λ _, list_to_map (as_row <$> reflections (rf_content latest.2)))
       (set_api GetContentsRoot w)).
Proof.
  intros Hconf Hfaults Hmax Hnd.
  unfold sync_from_github, get_contents_root, api_call, _import_from_json,
    mbind, M_bind, bind, gets, try_except. simpl.
  rewrite Hconf. simpl. rewrite (is_configured_repo _ Hconf), Hfaults. simpl.
  rewrite Hmax. simpl. by rewrite insert_all_empty.
Qed.

Lemma lookup_list_to_map_rows {V} (g : Z → Cols → V) (t : gmap Z Cols) i :
  (list_to_map ((λ x, (x.1, g x.1 x.2)) <$> map_to_list t) : gmap Z V) !! i
  = g i <$> t !! i.
Proof.
  assert (((λ x : Z * Cols, (x.1, g x.1 x.2)) <$> map_to_list t).*1
          = (map_to_list t).*1) as Hfst.
  { rewrite <- list_fmap_compose. apply list_fmap_ext. by intros ? []. }
  destruct (t !! i) as [c|] eqn:Hi; simpl.
  - apply elem_of_list_to_map_1.
    + rewrite Hfst. apply NoDup_fst_map_to_list.
    + apply list_elem_of_fmap. exists (i, c). split; [done|].
      by apply elem_of_map_to_list.
  - apply not_elem_of_list_to_map_1. rewrite Hfst.
    intros Hin. apply list_elem_of_fmap in Hin as ([i' c] & -> & Hin).
    apply elem_of_map_to_list in Hin. simpl in *. congruence.
Qed.

(** The dictionary built from an export has, under every id of the table,
    the exported row. *)
Lemma dict_by_id_export now t i :
  dict_by_id (reflections (export_to_json now t)) !! i
  = export_row i <$> t !! i.
Proof.
  unfold dict_by_id.
  rewrite (foldl_insert_union r_id id) by apply export_ids_NoDup.
  rewrite (right_id_L ∅ (∪)). simpl. rewrite <- list_fmap_compose.
  rewrite <- (lookup_list_to_map_rows export_row).
  f_equal. apply list_to_map_proper.
  - rewrite <- list_fmap_compose.
    rewrite (list_fmap_ext _ fst (select_all t)) by (by intros ? []).
    rewrite (select_all_perm t). apply NoDup_fst_map_to_list.
  - by rewrite (select_all_perm t).
Qed.

Lemma dict_by_id_export_dom now t :
  dom (dict_by_id (reflections (export_to_json now t))) = dom t.
Proof.
  apply set_eq. intros i. rewrite !elem_of_dom, dict_by_id_export.
  by rewrite fmap_is_Some.
Qed.

Lemma imported_dom (rs : list Reflection) :
  dom (list_to_map (as_row <$> rs) : gmap Z Cols) = list_to_set (r_id <$> rs).
Proof. rewrite dom_list_to_map_L. by rewrite <- list_fmap_compose. Qed.

Lemma restore_lookup (d : gmap Z Reflection) ids t j :
  (∀ i r, d !! i = Some r → r_id r = i) →
  restore d ids t !! j =
    if decide (j ∈ ids)
    then match d !! j with
         | Some r => Some (import_cols r)
         | None => t !! j
         end
    else t !! j.
Proof.
  intros Hkey. revert t. induction ids as [|i ids IH]; intros t.
  - reflexivity.
  - unfold restore in *. simpl. rewrite IH. clear IH.
    assert (∀ k, k ≠ i →
      (match d !! i with
       | Some reflection => <[r_id reflection := import_cols reflection]> t
       | None => t
       end) !! k = t !! k) as Hother.
    { intros k Hk. destruct (d !! i) as [r|] eqn:Hi; [|done].
      rewrite lookup_insert_ne; [done|]. rewrite (Hkey i r Hi). congruence. }
    destruct (decide (j ∈ ids)) as [Hin|Hnin].
    + rewrite decide_True by (by right).
      destruct (d !! j) as [r|] eqn:Hj; [done|].
      destruct (decide (j = i)) as [->|Hne]; [by rewrite Hj | by apply Hother].
    + destruct (decide (j = i)) as [->|Hne].
      * rewrite decide_True by left.
        destruct (d !! i) as [r|] eqn:Hi; [|done].
        rewrite <- (Hkey i r Hi) at 1. by rewrite lookup_insert_eq.
      * rewrite decide_False by (rewrite elem_of_cons; tauto).
        by apply Hother.
Qed.

Lemma _merge_from_remote_run w latest :
  is_configured (github_sync w) = true →
  faults w = [] →
  max_by_name (map_to_list (backups w)) = Some latest →
  NoDup (r_id <$> reflections (rf_content latest.2)) →
  (_merge_from_remote w).2 =
    let rs := reflections (rf_content latest.2) in
    if sync_deletions w then downloaded rs w
    else (sync_to_github (restored rs w)).2.
Proof.
  intros Hconf Hfaults Hmax Hnd.
  unfold _merge_from_remote, _export_local_data.
  unfold mbind, M_bind, bind, gets at 1. simpl.
  rewrite (sync_from_github_ok w latest) by done.
  unfold gets, modify. simpl.
  pose proof (dict_by_id_export_dom (clock w) (table w)) as HL.
  pose proof (dict_by_id_export_dom (clock w)
    (list_to_map (as_row <$> reflections (rf_content latest.2)))) as HR.
  simpl in HL, HR. rewrite HL, HR, imported_dom.
  destruct (sync_deletions w); simpl; [done|].
  unfold restored, downloaded. simpl.
  by destruct (sync_to_github _) as [[b|e] w3].
Qed.

Lemma restored_table_lookup rs w j :
  table (restored rs w) !! j =
    match table w !! j with
    | Some c =>
        if decide (j ∈ r_id <$> rs)
        then (list_to_map (as_row <$> rs) : gmap Z Cols) !! j
        else Some (as_exported c)
    | None => (list_to_map (as_row <$> rs) : gmap Z Cols) !! j
    end.
Proof.
  unfold restored, downloaded. cbn [table set_table set_api].
  rewrite restore_lookup.
  - rewrite dict_by_id_export.
    destruct (table w !! j) as [c|] eqn:Hj; simpl.
    + destruct (decide (j ∈ r_id <$> rs)) as [Hin|Hnin].
      * rewrite decide_False; [done|].
        rewrite elem_of_elements, elem_of_difference, elem_of_list_to_set.
        tauto.
      * rewrite decide_True; [done|].
        apply elem_of_elements, elem_of_difference. split.
        -- apply elem_of_dom. by eexists.
        -- by rewrite elem_of_list_to_set.
    + by case_decide.
  - intros i r. rewrite dict_by_id_export.
    destruct (table w !! i); simpl; [|done]. by intros [= <-].
Qed.

Lemma restored_table_dom rs w :
  dom (table (restored rs w)) = dom (table w) ∪ list_to_set (r_id <$> rs).
Proof.
  apply set_eq. intros j.
  rewrite elem_of_union, !elem_of_dom, restored_table_lookup.
  rewrite elem_of_list_to_set, <- (elem_of_list_to_set (C:=gset Z)).
  rewrite <- imported_dom, elem_of_dom.
  destruct (table w !! j) as [c|] eqn:Hj.
  - case_decide as Hin.
    + split; [by right | intros _].
      apply elem_of_dom. rewrite imported_dom. by apply elem_of_list_to_set.
    + split; [by left | by eexists].
  - split; [by right | intros [[? [=]]|H]; done].
Qed.

Lemma export_ids_set now t :
  (list_to_set (r_id <$> reflections (export_to_json now t)) : gset Z) = dom t.
Proof.
  apply set_eq. intros i.
  rewrite elem_of_list_to_set, export_ids_perm, elem_of_dom.
  rewrite list_elem_of_fmap. split.
  - intros ([i' c] & -> & Hin). apply elem_of_map_to_list in Hin. by eexists.
  - intros [c Hc]. exists (i, c). split; [done|].
    by apply elem_of_map_to_list.
Qed.

Lemma imported_lookup (rs : list Reflection) r :
  NoDup (r_id <$> rs) → r ∈ rs →
  (list_to_map (as_row <$> rs) : gmap Z Cols) !! r_id r = Some (import_cols r).
Proof.
  intros Hnd Hr. apply elem_of_list_to_map_1.
  - by rewrite <- list_fmap_compose.
  - apply list_elem_of_fmap. by exists r.
Qed.

(** C2, as the claim states it, fails: record 1 is in L − R and comes back,
    but not with its original field values; its embedding is lost. *)
Lemma merge_restores_without_embedding :
  let w' := (_merge_from_remote merge_state).2 in
  dom (table merge_state) = {[1; 2; 3]}
  ∧ dom (table w') = {[1; 2; 3; 4]}
  ∧ table merge_state !! 1 = Some (a_row 100 (Some [Byte.x01; Byte.x02]))
  ∧ table w' !! 1 = Some (a_row 100 None)
  ∧ table w' !! 1 ≠ table merge_state !! 1.
Proof.
  vm_compute. split_and!; try reflexivity. discriminate.
Qed.

(** C2, amended.  Let the remote be configured and no call to it fail, let
    the latest remote snapshot hold no id twice and be named for a month not
    after the current one, let L be the ids of LocalStore and R those of
    that snapshot.  After the merge the rows of R are those of the
    snapshot.  With deletion-sync enabled LocalStore has exactly the ids R
    and the repository is not written: the one call made is the listing of
    the download.  With deletion-sync disabled LocalStore has the ids
    L ∪ R, every row of L − R is back with the values of its export (its
    columns but the embedding, which is empty, NULL tags as the empty
    list), and the export of this store is written to the file of the
    current month, which is then the latest snapshot of the remote, with
    the ids L ∪ R. *)
Theorem merge_from_remote_id_sets (w : State) (latest : Z * RemoteFile) :
  is_configured (github_sync w) = true →
  faults w = [] →
  max_by_name (map_to_list (backups w)) = Some latest →
  NoDup (r_id <$> reflections (rf_content latest.2)) →
  latest.1 ≤ month w →
  let rs := reflections (rf_content latest.2) in
  let L : gset Z := dom (table w) in
  let R : gset Z := list_to_set (r_id <$> rs) in
  let w' := (_merge_from_remote w).2 in
  (∀ r, r ∈ rs → table w' !! r_id r = Some (import_cols r))
  ∧ if sync_deletions w
    then dom (table w') = R
         ∧ backups w' = backups w
         ∧ api_trace w' = api_trace w ++ [GetContentsRoot]
    else dom (table w') = L ∪ R
         ∧ (∀ i c, table w !! i = Some c → i ∉ R →
                   table w' !! i = Some (as_exported c))
         ∧ ∃ latest',
             max_by_name (map_to_list (backups w')) = Some latest'
             ∧ latest'.1 = month w
             ∧ rf_content latest'.2 = export_to_json (clock w) (table w')
             ∧ list_to_set (r_id <$> reflections (rf_content latest'.2))
               = L ∪ R.
Proof.
  intros Hconf Hfaults Hmax Hnd Hmonth rs L R w'.
  subst w'. rewrite (_merge_from_remote_run w latest) by done. fold rs.
  destruct (sync_deletions w) eqn:Hsd; simpl.
  - split; [intros r Hr; by apply imported_lookup|].
    split_and!; [apply imported_dom | done | done].
  - destruct (sync_to_github_ok (restored rs w)) as (w3 & Hrun & Ht & Hb & _);
      [done | simpl; by rewrite Hfaults |].
    rewrite Hrun. simpl. rewrite Ht.
    assert (dom (table (restored rs w)) = L ∪ R) as Hdom
      by apply restored_table_dom.
    split_and!.
    + intros r Hr. rewrite restored_table_lookup.
      destruct (table w !! r_id r);
        [rewrite decide_True by (by apply list_elem_of_fmap_2)|];
        by apply imported_lookup.
    + exact Hdom.
    + intros i c Hi HiR. rewrite restored_table_lookup, Hi.
      rewrite decide_False; [done|].
      intros Hin. apply HiR. by apply elem_of_list_to_set.
    + exists (month w, uploaded (restored rs w)). split_and!.
      * rewrite Hb. apply max_by_name_insert. intros k' Hk'.
        etransitivity; [|exact Hmonth].
        by apply (max_by_name_bound (backups w)).
      * done.
      * done.
      * rewrite <- Hdom. exact (export_ids_set _ _).
Qed.

(** The two round trips of the specification: local ids 1, 2, 3 against
    remote ids 2, 3, 4. *)
Example deletion_restoration_round_trip :
  let w' := (_merge_from_remote merge_state).2 in
  dom (table w') = {[1; 2; 3; 4]}
  ∧ ((λ f, r_id <$> reflections (rf_content f.2)) <$>
       max_by_name (map_to_list (backups w'))) = Some [1; 2; 3; 4].
Proof. vm_compute. split; reflexivity. Qed.

Example deletion_propagation_round_trip :
  let w' := (_merge_from_remote merge_state_propagating).2 in
  dom (table w') = {[2; 3; 4]}
  ∧ backups w' = backups merge_state_propagating
  ∧ api_trace w' = [GetContentsRoot].
Proof. vm_compute. split_and!; reflexivity. Qed.

Lemma merge_from_remote_id_sets_witness :
  let w' := (_merge_from_remote merge_state).2 in
  dom (table w') = {[1; 2; 3]} ∪ {[2; 3; 4]}
  ∧ ∃ latest',
      max_by_name (map_to_list (backups w')) = Some latest'
      ∧ list_to_set (r_id <$> reflections (rf_content latest'.2))
        = ({[1; 2; 3]} ∪ {[2; 3; 4]} : gset Z).
Proof.
  pose proof (merge_from_remote_id_sets merge_state
    (202611, {| rf_content :=
            {| export_time := 4000; total_count := 3;
               reflections := [export_row 2 (a_row 200 None);
                               export_row 3 (a_row 300 None);
                               export_row 4 (a_row 3900 None)] |};
          rf_commits := [4000] |})) as H.
  destruct H as (_ & Hdom & _ & latest' & Hmax & _ & _ & Hids).
  - reflexivity.
  - reflexivity.
  - reflexivity.
  - refine (bool_decide_unpack _ _). vm_compute. exact I.
  - simpl. lia.
  - split.
    + rewrite Hdom. refine (bool_decide_unpack _ _). vm_compute. exact I.
    + exists latest'. split; [exact Hmax|].
      rewrite Hids. refine (bool_decide_unpack _ _). vm_compute. exact I.
Defined.

(** ** Enqueueing a deletion backup *)

(** C7. [backup_deleted_record] returns at once and makes no call to the
    remote: the repository and the history of calls are as before.  With
    the remote configured it puts the job at the end of the queue and
    returns true; with the remote not configured it returns false and the
    state, the queue in it, is as before. *)
Theorem backup_deleted_record_enqueues (reflection : Reflection) (w : State) :
  let r := backup_deleted_record reflection w in
  deleted_records r.2 = deleted_records w
  ∧ backups r.2 = backups w
  ∧ api_trace r.2 = api_trace w
  ∧ if is_configured (app_github_sync w)
    then r.1 = Ret true ∧ backup_queue r.2 = backup_queue w ++ [reflection]
    else r.1 = Ret false ∧ r.2 = w.
Proof.
  unfold backup_deleted_record, mbind, M_bind, bind, gets, modify. simpl.
  destruct (is_configured (app_github_sync w)); simpl; done.
Qed.

(** ** The deletion-backup queue *)

Lemma enqueued_app tr tr' : enqueued (tr ++ tr') = enqueued tr ++ enqueued tr'.
Proof. apply omap_app. Qed.

Lemma written_app tr tr' : written (tr ++ tr') = written tr ++ written tr'.
Proof. apply omap_app. Qed.

Lemma ended_app tr tr' : ended (tr ++ tr') = ended tr ++ ended tr'.
Proof. apply omap_app. Qed.

Lemma backup_calls_app tr tr' :
  backup_calls (tr ++ tr') = backup_calls tr ++ backup_calls tr'.
Proof. apply omap_app. Qed.

(** The sync sessions leave the queue and the backup files alone. *)
Lemma api_call_queue_view gh c :
  backup_calls [c] = [] → stable (keeps queue_view) (api_call gh c).
Proof.
  intros Hc w. unfold api_call, keeps, queue_view.
  destruct (repo gh); [|done].
  assert (backup_calls (api_trace w ++ [c]) = backup_calls (api_trace w))
    as Hsame by (by rewrite backup_calls_app, Hc, (right_id_L [] (++))).
  destruct (head (faults w)) as [[e|]|]; simpl; by rewrite Hsame.
Qed.
#[global] Hint Extern 1 (stable (keeps queue_view) (api_call _ _)) =>
  apply api_call_queue_view; reflexivity : stable.

Lemma sync_to_github_queue_view : stable (keeps queue_view) sync_to_github.
Proof.
  unfold sync_to_github, get_contents, update_file, create_file,
    _update_sync_log.
  stable_solve.
Qed.
#[global] Hint Resolve sync_to_github_queue_view : stable.

Lemma sync_from_github_queue_view : stable (keeps queue_view) sync_from_github.
Proof.
  unfold sync_from_github, get_contents_root, _import_from_json.
  stable_solve.
Qed.
#[global] Hint Resolve sync_from_github_queue_view : stable.

Lemma sync_on_startup_queue_view : stable (keeps queue_view) sync_on_startup.
Proof.
  unfold sync_on_startup, _smart_merge, _merge_from_remote,
    _export_local_data, _get_local_last_modified, _get_remote_last_modified,
    get_contents_root, get_commits, _save_last_sync_time.
  stable_solve.
Qed.
#[global] Hint Resolve sync_on_startup_queue_view : stable.

Lemma manual_sync_queue_view direction :
  stable (keeps queue_view) (manual_sync direction).
Proof.
  unfold manual_sync, _save_last_sync_time, _notify_sync_complete.
  stable_solve.
Qed.

Lemma sync_tick_queue_view : stable (keeps queue_view) sync_tick.
Proof.
  unfold sync_tick, _get_local_last_modified, _save_last_sync_time,
    _notify_sync_complete.
  stable_solve.
Qed.

(** The two operations on the queue. *)
Lemma backup_deleted_record_run (reflection : Reflection) (w : State) :
  backup_deleted_record reflection w =
    if is_configured (app_github_sync w)
    then (Ret true, set_backup_queue (λ q, q ++ [reflection]) w)
    else (Ret false, w).
Proof.
  unfold backup_deleted_record, mbind, M_bind, bind, gets, modify. simpl.
  by destruct (is_configured (app_github_sync w)).
Qed.

Lemma _do_backup_to_github_run (job : Reflection) (w : State) :
  repo (app_github_sync w) = true →
  ∃ b w', _do_backup_to_github job w = (Ret b, w')
          ∧ backup_queue w' = backup_queue w
          ∧ app_github_sync w' = app_github_sync w
          ∧ backup_calls (api_trace w') = backup_calls (api_trace w) ++ [job].
Proof.
  intros Hrepo.
  unfold _do_backup_to_github, create_deleted, api_call, try_except,
    mbind, M_bind, bind, gets. simpl. rewrite Hrepo.
  destruct (head (faults w)) as [[e|]|]; simpl;
    try destruct (deleted_records w !! (r_id job, clock w)); simpl;
    do 2 eexists; (split; [reflexivity|]); simpl;
    by rewrite backup_calls_app.
Qed.

Lemma _do_backup_to_github_queue job :
  stable (keeps backup_queue) (_do_backup_to_github job).
Proof. unfold _do_backup_to_github, create_deleted, api_call. stable_solve. Qed.

Lemma _do_backup_to_github_returns job : no_raise (_do_backup_to_github job).
Proof. unfold _do_backup_to_github. returns_solve. Qed.

(** The function [exec] runs the transition system. *)
Lemma exec_step a s s' : exec a s = Some s' → step s s'.
Proof.
  unfold exec. destruct a as [job| | | |direction|].
  - destruct (backup_deleted_record job (st s)) as [[b|e] w'] eqn:Hrun;
      [|by destruct (worker s)].
    intros H. assert (s' = {| st := w'; worker := worker s;
                              events := events s ++ [Enqueue job b] |}) as ->
      by (destruct (worker s); by simplify_eq).
    by apply step_enqueue.
  - destruct (worker s) eqn:Hw; try done.
    destruct (backup_queue (st s)) as [|job q] eqn:Hq; [done|].
    intros [= <-]. by eapply step_get.
  - destruct (worker s) as [|job|job] eqn:Hw; try done.
    intros [= <-]. by apply step_begin.
  - destruct (worker s) as [|job|job] eqn:Hw; try done.
    destruct (_do_backup_to_github job (st s)) as [[b|e] w'] eqn:Hrun;
      [|done].
    intros [= <-]. by eapply step_end.
  - destruct (manual_sync direction (st s)) as [[b|e] w'] eqn:Hrun;
      [|by destruct (worker s)].
    intros H. assert (s' = {| st := w'; worker := worker s;
                              events := events s |}) as ->
      by (destruct (worker s); by simplify_eq).
    by eapply step_manual_sync.
  - destruct (sync_tick (st s)) as [[[]|e] w'] eqn:Hrun;
      [|by destruct (worker s)].
    intros H. assert (s' = {| st := w'; worker := worker s;
                              events := events s |}) as ->
      by (destruct (worker s); by simplify_eq).
    by eapply step_tick.
Qed.

Lemma run_reachable acts s s' :
  reachable s → run acts s = Some s' → reachable s'.
Proof.
  revert s. induction acts as [|a acts IH]; intros s Hs; simpl.
  - by intros [= <-].
  - destruct (exec a s) as [s1|] eqn:Hexec; [|done].
    apply IH. eapply reach_step; [exact Hs | by apply (exec_step a)].
Qed.

Lemma queue_inv_initial s : initial s → queue_inv s.
Proof.
  intros (Hq & Hw & He & Ha). unfold queue_inv.
  rewrite Hq, Hw, He, Ha. split_and!; try done. by intros [|].
Qed.

(** A step of a sync session keeps the invariant. *)
Lemma queue_inv_frame s w' :
  queue_inv s →
  queue_view w' = queue_view (st s) →
  queue_inv {| st := w'; worker := worker s; events := events s |}.
Proof.
  intros (Horder & Hwritten & Hcalls & Hconf) Hview.
  unfold queue_view in Hview. injection Hview as Hq Hgh Hc.
  unfold queue_inv. simpl. by rewrite Hq, Hgh, Hc.
Qed.

Lemma queue_inv_step s s' : queue_inv s → step s s' → queue_inv s'.
Proof.
  intros Hinv Hstep.
  destruct Hstep as [s job b w' Hrun|s job q Hw Hq|s job Hw
                    |s job b w' Hw Hrun|s direction b w' Hrun|s w' Hrun].
  - destruct Hinv as (Horder & Hwritten & Hcalls & Hconf).
    unfold queue_inv. simpl.
    rewrite enqueued_app, written_app, ended_app. simpl.
    rewrite !(right_id_L [] (++)).
    rewrite backup_deleted_record_run in Hrun.
    destruct (is_configured (app_github_sync (st s))) eqn:Hc;
      injection Hrun as <- <-; simpl.
    + split_and!; try done. by rewrite Horder, !(assoc_L (++)).
    + rewrite (right_id_L [] (++)). split_and!; try done.
      intros Hjob. rewrite Hc. by apply Hconf.
  - destruct Hinv as (Horder & Hwritten & Hcalls & Hconf).
    unfold queue_inv. simpl. rewrite Hw, Hq in *. simpl in *.
    split_and!; try done. intros _. apply Hconf. by right.
  - destruct Hinv as (Horder & Hwritten & Hcalls & Hconf).
    unfold queue_inv. simpl.
    rewrite enqueued_app, written_app, ended_app. simpl.
    rewrite Hw in *. simpl in *. rewrite !(right_id_L [] (++)) in *.
    split_and!; [by rewrite Horder, <- (assoc_L (++)) | by rewrite Hwritten
                | done | intros _; apply Hconf; by left].
  - destruct Hinv as (Horder & Hwritten & Hcalls & Hconf).
    assert (is_configured (app_github_sync (st s)) = true) as Hc
      by (apply Hconf; left; by rewrite Hw).
    destruct (_do_backup_to_github_run job (st s) (is_configured_repo _ Hc))
      as (b' & w'' & Hrun' & Hq & Hgh & Hcall).
    rewrite Hrun in Hrun'. injection Hrun' as <- <-.
    unfold queue_inv. simpl.
    rewrite enqueued_app, written_app, ended_app. simpl.
    rewrite Hw in *. simpl in *. rewrite !(right_id_L [] (++)) in *.
    rewrite Hq, Hgh, Hcall, Hcalls.
    split_and!; try done; intros _; exact Hc.
  - apply (queue_inv_frame s w' Hinv).
    pose proof (manual_sync_queue_view direction (st s)) as Hkeep.
    by rewrite Hrun in Hkeep.
  - apply (queue_inv_frame s w' Hinv).
    pose proof (sync_tick_queue_view (st s)) as Hkeep.
    by rewrite Hrun in Hkeep.
Qed.

Lemma queue_inv_reachable s : reachable s → queue_inv s.
Proof.
  induction 1 as [s Hinit|s s' _ IH Hstep].
  - by apply queue_inv_initial.
  - by eapply queue_inv_step.
Qed.

(** C6. In every state that the application reaches, whatever the
    interleaving of its threads: at most one backup write is begun and not
    ended; the backup files that the remote was asked to create are those
    of the writes ended, which come first among the writes begun, which
    come first among the accepted jobs, each in the same order.  So of two
    accepted jobs A and B, the call that enqueued A having returned before
    the call for B, the remote write of A is made before that of B. *)
Theorem backup_writes_in_enqueue_order (s : System) :
  reachable s →
  (in_flight (events s) ≤ 1)%nat
  ∧ backup_calls (api_trace (st s)) = ended (events s)
  ∧ ended (events s) `prefix_of` written (events s)
  ∧ written (events s) `prefix_of` enqueued (events s)
  ∧ ∀ (i j : nat) (A B : Reflection),
      (i < j)%nat →
      enqueued (events s) !! i = Some A →
      enqueued (events s) !! j = Some B →
      (j < length (backup_calls (api_trace (st s))))%nat →
      backup_calls (api_trace (st s)) !! i = Some A
      ∧ backup_calls (api_trace (st s)) !! j = Some B.
Proof.
  intros Hreach.
  destruct (queue_inv_reachable s Hreach) as (Horder & Hwritten & Hcalls & _).
  unfold in_flight. split_and!.
  - rewrite Hwritten, length_app. destruct (worker s); simpl; lia.
  - done.
  - rewrite Hwritten. by eexists.
  - rewrite Horder. by eexists.
  - intros i j A B Hij HA HB Hj.
    rewrite Horder, Hwritten, <- Hcalls, <- !(assoc_L (++)) in HA, HB.
    rewrite lookup_app_l in HA by lia. by rewrite lookup_app_l in HB by lia.
Qed.

Lemma after_schedule_reachable : reachable after_schedule.
Proof.
  apply (run_reachable schedule started).
  - apply reach_init. by split_and!.
  - vm_compute. reflexivity.
Qed.

Lemma backup_writes_in_enqueue_order_witness :
  enqueued (events after_schedule) = [job_A; job_B]
  ∧ backup_calls (api_trace (st after_schedule)) !! 0%nat = Some job_A
  ∧ backup_calls (api_trace (st after_schedule)) !! 1%nat = Some job_B
  ∧ (in_flight (events after_schedule) ≤ 1)%nat.
Proof.
  destruct (backup_writes_in_enqueue_order after_schedule
              after_schedule_reachable) as (Hone & _ & _ & _ & Horder).
  destruct (Horder 0%nat 1%nat job_A job_B) as [HA HB];
    [lia | vm_compute; reflexivity | vm_compute; reflexivity
    | vm_compute; lia |].
  split_and!; [vm_compute; reflexivity | exact HA | exact HB | exact Hone].
Defined.

(** The worker alone drains the queue: every queued job is written, in the
    order of the queue. *)
Lemma _process_backup_queue_drains (n : nat) (s : System) :
  worker s = AtGet →
  length (backup_queue (st s)) = n →
  let s' := _process_backup_queue n s in
  backup_queue (st s') = []
  ∧ worker s' = AtGet
  ∧ written (events s') = written (events s) ++ backup_queue (st s)
  ∧ ended (events s') = ended (events s) ++ backup_queue (st s)
  ∧ (reachable s → reachable s').
Proof.
  revert s. induction n as [|n IH]; intros s Hw Hlen; simpl.
  - apply nil_length_inv in Hlen. rewrite Hlen, !(right_id_L [] (++)). done.
  - rewrite Hw. destruct (backup_queue (st s)) as [|job q] eqn:Hq; [done|].
    simpl in Hlen.
    pose proof (_do_backup_to_github_queue job
                  (set_backup_queue (λ _, q) (st s))) as Hkeep.
    destruct (_do_backup_to_github_returns job
                (set_backup_queue (λ _, q) (st s))) as [b Hb].
    destruct (_do_backup_to_github job (set_backup_queue (λ _, q) (st s)))
      as [r w'] eqn:Hrun.
    unfold keeps in Hkeep. simpl in Hkeep, Hb. subst r. simpl.
    match goal with |- context [_process_backup_queue n ?s1] =>
      destruct (IH s1) as (Hempty & Hidle & Hwritten & Hended & Hreach) end;
      [done | simpl; rewrite Hkeep; lia |].
    split_and!; [done | done | | |].
    + rewrite Hwritten. simpl. rewrite written_app. simpl.
      rewrite Hkeep, <- (assoc_L (++)). done.
    + rewrite Hended. simpl. rewrite ended_app. simpl.
      rewrite Hkeep, <- (assoc_L (++)). done.
    + intros Hs. apply Hreach.
      eapply reach_step; [eapply reach_step; [eapply reach_step|]|].
      * exact Hs.
      * by eapply step_get.
      * by eapply step_begin.
      * replace (events s ++ [WriteBegin job; WriteEnd job b])
          with ((events s ++ [WriteBegin job]) ++ [WriteEnd job b])
          by (by rewrite <- (assoc_L (++))).
        by eapply (step_end {| st := set_backup_queue (λ _, q) (st s);
                               worker := InBackup job;
                               events := events s ++ [WriteBegin job] |}).
Qed.


(** * Further properties *)

(** ** Upload and download *)

Lemma set_table_same (f : gmap Z Cols → gmap Z Cols) (w : State) :
  f (table w) = table w → set_table f w = w.
Proof. intros Hf. destruct w. unfold set_table. simpl in *. by rewrite Hf. Qed.

(** X1. With the remote not configured, [start_auto_sync],
    [sync_to_github] and [sync_from_github] do nothing: no call to the
    remote, no row in the sync log, no time recorded; the state is as it
    was, and the upload and the download return False. *)
Theorem sync_not_configured (w : State) :
  is_configured (github_sync w) = false →
  start_auto_sync w = (Ret (), w)
  ∧ sync_to_github w = (Ret false, w)
  ∧ sync_from_github w = (Ret false, w).
Proof.
  intros Hconf.
  unfold start_auto_sync, sync_to_github, sync_from_github, mbind, M_bind,
    bind, gets.
  simpl. by rewrite Hconf.
Qed.

Lemma sync_not_configured_witness :
  start_auto_sync
    (SyncManager_init {| token := ""; repo_name := ""; repo := false |}
       true fresh_state)
  = (Ret (),
     SyncManager_init {| token := ""; repo_name := ""; repo := false |}
       true fresh_state).
Proof.
  apply (sync_not_configured
           (SyncManager_init {| token := ""; repo_name := ""; repo := false |}
              true fresh_state)).
  reflexivity.
Defined.

(** Case analysis on a run: the innermost scrutinee first. *)
Ltac destruct_inner :=
  match goal with
  | |- context [match ?x with _ => _ end] =>
      lazymatch x with
      | context [match _ with _ => _ end] => fail
      | _ => destruct x eqn:?
      end
  end.

Ltac run_cases :=
  repeat (simpl in *; destruct_inner); simpl in *; simplify_eq.

Ltac run_upload :=
  unfold sync_to_github, get_contents, update_file, create_file, api_call,
    _update_sync_log, try_except_github, try_except, mbind, M_bind, bind,
    gets, modify, mret, M_ret, ret;
  run_cases.


(** The INSERT loop succeeds only on ids that are new and distinct. *)
Lemma insert_all_NoDup rs t t' :
  insert_all rs t = Some t' →
  NoDup (r_id <$> rs) ∧ t' = Spec.insert_each rs t.
Proof.
  revert t. induction rs as [|r rs IH]; intros t Hins; simpl in *.
  - split; [constructor | by simplify_eq].
  - destruct (t !! r_id r) eqn:Hr; [done|].
    destruct (IH _ Hins) as [Hnd Ht]. split; [|done].
    apply NoDup_cons. split; [|done].
    intros Hin. apply list_elem_of_fmap in Hin as (r' & Hid & Hr').
    assert (∀ rs' t0 t1 i, insert_all rs' t0 = Some t1 → is_Some (t0 !! i) →
                           i ∉ r_id <$> rs') as Hfresh.
    { clear. induction rs' as [|r rs' IH]; intros t0 t1 i Hins Hi; simpl in *.
      - apply not_elem_of_nil.
      - destruct (t0 !! r_id r) eqn:Hr; [done|].
        apply not_elem_of_cons. split.
        + intros ->. rewrite Hr in Hi. by destruct Hi.
        + apply (IH _ _ _ Hins).
          destruct (decide (i = r_id r)) as [->|Hne].
          * rewrite lookup_insert_eq. by eexists.
          * by rewrite lookup_insert_ne. }
    apply (Hfresh _ _ _ (r_id r) Hins).
    + rewrite lookup_insert_eq. by eexists.
    + rewrite Hid. by apply list_elem_of_fmap_2.
Qed.



Ltac run_download :=
  unfold sync_from_github, get_contents_root, api_call, _import_from_json,
    try_except, mbind, M_bind, bind, gets, modify, mret, M_ret, ret;
  run_cases.

(** X4. A download is all or nothing, and only reads the remote.
    [sync_from_github] never changes the repository or the sync log.  When
    it returns True, LocalStore holds the rows of the latest snapshot and no
    other, and that snapshot has no id twice; when it returns False,
    LocalStore is as it was. *)
Theorem sync_from_github_all_or_nothing (w : State) :
  let r := sync_from_github w in
  backups r.2 = backups w
  ∧ deleted_records r.2 = deleted_records w
  ∧ sync_log r.2 = sync_log w
  ∧ (r.1 = Ret true →
     ∃ latest, max_by_name (map_to_list (backups w)) = Some latest
               ∧ NoDup (r_id <$> reflections (rf_content latest.2))
               ∧ table r.2
                 = list_to_map (as_row <$> reflections (rf_content latest.2)))
  ∧ (r.1 = Ret false → table r.2 = table w)
  ∧ (r.1 = Ret true ∨ r.1 = Ret false).
Proof.
  split_and!.
  - run_download; done.
  - run_download; done.
  - run_download; done.
  - run_download; try done.
    all: intros _; eexists; split; [reflexivity|].
    all: match goal with H : insert_all _ ∅ = Some _ |- _ =>
           apply insert_all_NoDup in H as [Hnd Ht] end.
    all: split; [done|]. all: by rewrite Ht, insert_each_union,
                                  (right_id_L ∅ (∪)).
  - run_download; done.
  - run_download; auto.
Qed.

(** ** Import and export *)


Lemma imported_row_plain (rs : list Reflection) i c :
  (list_to_map (as_row <$> rs) : gmap Z Cols) !! i = Some c →
  as_exported c = c.
Proof.
  intros Hc. apply elem_of_list_to_map_2 in Hc.
  apply list_elem_of_fmap in Hc as (r & [= -> ->] & _).
  apply as_exported_id; [done|].
  simpl. by destruct (r_tags r) as [[|]|].
Qed.

(** X6. A store that came from an import goes through export and import
    unchanged: its rows have no embedding and no NULL tags, the only things
    that the round trip does not keep. *)
Theorem imported_store_round_trip (data : Snapshot) (w w2 : State) (now : Z) :
  NoDup (r_id <$> reflections data) →
  let w1 := (_import_from_json data w).2 in
  _import_from_json (export_to_json now (table w1)) w2
  = (Ret true, set_table (λ _, table w1) w2).
Proof.
  intros Hnd w1. rewrite import_export. f_equal.
  unfold set_table. simpl. f_equal.
  subst w1. unfold _import_from_json.
  rewrite insert_all_empty by done. simpl.
  apply map_eq. intros i. rewrite lookup_fmap.
  destruct (list_to_map (as_row <$> reflections data) !! i) as [c|] eqn:Hi;
    simpl; [|done].
  f_equal. by eapply imported_row_plain.
Qed.

Lemma imported_store_round_trip_witness :
  _import_from_json
    (export_to_json 5000
       (table (_import_from_json remote_snapshot fresh_state).2))
    fresh_state
  = (Ret true,
     set_table (λ _, table (_import_from_json remote_snapshot fresh_state).2)
       fresh_state).
Proof.
  apply (imported_store_round_trip remote_snapshot fresh_state fresh_state 5000).
  refine (bool_decide_unpack _ _). vm_compute. exact I.
Defined.

(** X7. The snapshot lists the records in the order of their creation
    times, earliest first. *)
Theorem export_sorted_by_created_at (now : Z) (t : gmap Z Cols) :
  StronglySorted (λ r1 r2, r_created_at r1 ≤ r_created_at r2)
    (reflections (export_to_json now t)).
Proof.
  simpl. apply (StronglySorted_fmap _ by_created_at).
  - intros [i1 c1] [i2 c2] H. exact H.
  - apply StronglySorted_merge_sort.
    + intros x y z. unfold by_created_at. lia.
    + intros x y. unfold by_created_at. lia.
Qed.

(** ** The times of last modification *)

Lemma max_updated_at_spec (t : gmap Z Cols) :
  match max_updated_at t with
  | None => t = ∅
  | Some m => (∃ i c, t !! i = Some c ∧ updated_at c = m)
              ∧ ∀ i c, t !! i = Some c → updated_at c ≤ m
  end.
Proof.
  unfold max_updated_at.
  apply (map_fold_weak_ind (λ r (m : gmap Z Cols),
    match r with
    | None => m = ∅
    | Some mx => (∃ i c, m !! i = Some c ∧ updated_at c = mx)
                 ∧ ∀ i c, m !! i = Some c → updated_at c ≤ mx
    end)); [done|].
  intros i c m r Hi IH. destruct r as [mx|].
  - destruct IH as [(j & d & Hj & Hd) Hmax]. split.
    + destruct (decide (mx ≤ updated_at c)).
      * exists i, c. rewrite lookup_insert_eq. split; [done | lia].
      * exists j, d. rewrite lookup_insert_ne by congruence.
        split; [done | lia].
    + intros k e Hk. destruct (decide (k = i)) as [->|Hne].
      * rewrite lookup_insert_eq in Hk. simplify_eq. lia.
      * rewrite lookup_insert_ne in Hk by done.
        specialize (Hmax k e Hk). lia.
  - subst m. split.
    + exists i, c. by rewrite lookup_insert_eq.
    + intros k e Hk. destruct (decide (k = i)) as [->|Hne].
      * rewrite lookup_insert_eq in Hk. by simplify_eq.
      * by rewrite lookup_insert_ne, lookup_empty in Hk.
Qed.

(** X8. [_get_local_last_modified] changes nothing and returns None
    exactly for the empty store; else it returns the [updated_at] of some
    row, which no row exceeds. *)
Theorem local_time_is_greatest (w : State) :
  (_get_local_last_modified w).2 = w
  ∧ match (_get_local_last_modified w).1 with
    | Ret None => table w = ∅
    | Ret (Some m) =>
        (∃ i c, table w !! i = Some c ∧ updated_at c = m)
        ∧ ∀ i c, table w !! i = Some c → updated_at c ≤ m
    | Raise _ => False
    end.
Proof.
  split; [done|]. simpl. apply max_updated_at_spec.
Qed.

Lemma max_by_name_lookup (m : gmap Z RemoteFile) latest :
  max_by_name (map_to_list m) = Some latest → m !! latest.1 = Some latest.2.
Proof.
  intros Hmax. apply max_by_name_Some in Hmax as [Hin _].
  destruct latest. by apply elem_of_map_to_list.
Qed.

(** X9. When the listing of the repository fails, or [repo] is not there,
    [_get_remote_last_modified] returns None, as it does for a repository
    without a snapshot; LocalStore and the repository are not changed. *)
Theorem remote_time_absent_on_failure (w : State) :
  repo (github_sync w) = false ∨ (∃ e, head (faults w) = Some (Some e))
  ∨ backups w = ∅ →
  (_get_remote_last_modified w).1 = Ret None
  ∧ stores (_get_remote_last_modified w).2 = stores w.
Proof.
  intros Hfail. split; [|apply _get_remote_last_modified_stores].
  unfold _get_remote_last_modified, get_contents_root, get_commits, api_call,
    try_except, mbind, M_bind, bind, gets, mret, M_ret, ret.
  destruct Hfail as [Hrepo|[[e He]|Hempty]].
  - simpl. by rewrite Hrepo.
  - simpl. rewrite He. by destruct (repo (github_sync w)).
  - simpl. destruct (repo (github_sync w)); [|done].
    destruct (head (faults w)) as [[?|]|]; simpl; try done;
      by rewrite Hempty, map_to_list_empty.
Qed.

Lemma remote_time_absent_on_failure_witness :
  (_get_remote_last_modified offline_state).1 = Ret None
  ∧ stores (_get_remote_last_modified offline_state).2 = stores offline_state.
Proof.
  apply (remote_time_absent_on_failure offline_state).
  right. left. by exists RequestException.
Defined.

(** X10. When no call fails, [_get_remote_last_modified] returns the date
    of the newest commit of the snapshot file of the greatest name. *)
Theorem remote_time_is_latest_commit (w : State) (latest : Z * RemoteFile) :
  repo (github_sync w) = true →
  faults w = [] →
  max_by_name (map_to_list (backups w)) = Some latest →
  (_get_remote_last_modified w).1 = Ret (head (rf_commits latest.2)).
Proof.
  intros Hrepo Hfaults Hmax.
  unfold _get_remote_last_modified, get_contents_root, get_commits, api_call,
    try_except, mbind, M_bind, bind, gets, mret, M_ret, ret.
  simpl. rewrite Hrepo, Hfaults. simpl. rewrite Hmax. simpl.
  rewrite Hfaults. simpl. by rewrite (max_by_name_lookup _ _ Hmax).
Qed.

Lemma remote_time_is_latest_commit_witness :
  (_get_remote_last_modified merge_state).1 = Ret (Some 4000).
Proof.
  apply (remote_time_is_latest_commit merge_state
           (202611, {| rf_content := remote_snapshot; rf_commits := [4000] |}));
    reflexivity.
Defined.

(** ** Sync sessions *)


Lemma sync_tick_returns : no_raise sync_tick.
Proof.
  unfold sync_tick, _get_local_last_modified, _save_last_sync_time,
    _notify_sync_complete.
  returns_solve.
Qed.


Lemma sync_to_github_session_view :
  stable (keeps session_view) sync_to_github.
Proof.
  unfold sync_to_github, get_contents, update_file, create_file, api_call,
    _update_sync_log.
  stable_solve.
Qed.

Lemma sync_from_github_session_view :
  stable (keeps session_view) sync_from_github.
Proof.
  unfold sync_from_github, get_contents_root, api_call, _import_from_json.
  stable_solve.
Qed.

(** [manual_sync] for one direction, given the operation that it runs. *)
Lemma manual_sync_one_way_run (direction : string) (op : M bool) (w : State) :
  is_syncing w = false →
  manual_sync direction w =
    (let (r, w1) :=
       (success ← op;
        (if (success : bool) then
           modify (λ w, set_last_sync_time (Some (clock w)) w);;
           _save_last_sync_time;;
           _notify_sync_complete
         else mret ());;
        mret success) (set_is_syncing true w) in
     (r, set_is_syncing false w1)) →
  stable (keeps session_view) op →
  no_raise op →
  let done := op (set_is_syncing true w) in
  let r := manual_sync direction w in
  r.1 = done.1
  ∧ (done.1 = Ret false →
     last_sync_time r.2 = last_sync_time w
     ∧ sync_state_file r.2 = sync_state_file w
     ∧ callback_runs r.2 = callback_runs w)
  ∧ (done.1 = Ret true →
     last_sync_time r.2 = Some (clock w)
     ∧ _load_last_sync_time r.2 = Some (clock w)
     ∧ callback_runs r.2 = (callback_runs w + sync_callbacks w)%nat).
Proof.
  intros Hidle Hrun Hkeep Hret. simpl. rewrite Hrun. clear Hrun.
  specialize (Hkeep (set_is_syncing true w)).
  destruct (Hret (set_is_syncing true w)) as [b Hb].
  unfold mbind, M_bind, bind, modify, _save_last_sync_time,
    _notify_sync_complete, _load_last_sync_time, mret, M_ret, ret.
  destruct (op (set_is_syncing true w)) as [r w1]. simpl in *. subst r.
  unfold keeps, session_view in Hkeep. simpl in Hkeep.
  injection Hkeep as Hl Hf Hc Hs Hk.
  destruct b; simpl; split_and!; try done; intros _; simpl;
    split_and!; congruence.
Qed.

Lemma manual_sync_upload_cases (w : State) :
  is_syncing w = false →
  let done := sync_to_github (set_is_syncing true w) in
  let r := manual_sync "upload" w in
  r.1 = done.1
  ∧ (done.1 = Ret false →
     last_sync_time r.2 = last_sync_time w
     ∧ sync_state_file r.2 = sync_state_file w
     ∧ callback_runs r.2 = callback_runs w)
  ∧ (done.1 = Ret true →
     last_sync_time r.2 = Some (clock w)
     ∧ _load_last_sync_time r.2 = Some (clock w)
     ∧ callback_runs r.2 = (callback_runs w + sync_callbacks w)%nat).
Proof.
  intros Hidle.
  apply (manual_sync_one_way_run "upload" sync_to_github w Hidle).
  - unfold manual_sync, try_finally, mbind, M_bind, bind, gets, modify.
    simpl. by rewrite Hidle.
  - apply sync_to_github_session_view.
  - apply sync_to_github_returns.
Qed.

Lemma manual_sync_download_cases (w : State) :
  is_syncing w = false →
  let done := sync_from_github (set_is_syncing true w) in
  let r := manual_sync "download" w in
  r.1 = done.1
  ∧ (done.1 = Ret false →
     last_sync_time r.2 = last_sync_time w
     ∧ sync_state_file r.2 = sync_state_file w
     ∧ callback_runs r.2 = callback_runs w)
  ∧ (done.1 = Ret true →
     last_sync_time r.2 = Some (clock w)
     ∧ _load_last_sync_time r.2 = Some (clock w)
     ∧ callback_runs r.2 = (callback_runs w + sync_callbacks w)%nat).
Proof.
  intros Hidle.
  apply (manual_sync_one_way_run "download" sync_from_github w Hidle).
  - unfold manual_sync, try_finally, mbind, M_bind, bind, gets, modify.
    simpl. by rewrite Hidle.
  - apply sync_from_github_session_view.
  - apply sync_from_github_returns.
Qed.

(** X12. [manual_sync] for the direction upload or download, started
    while no session is active, returns what the upload or the download
    returns.  After a failed one the time of the last sync is as it was, in
    memory and in the state file, and no callback is run; after a
    successful one the time of the last sync is the time of the call, in
    memory and in the state file, and every callback is run once. *)
Theorem manual_sync_one_way (direction : string) (w : State) :
  is_syncing w = false →
  direction = "upload" ∨ direction = "download" →
  let op := if decide (direction = "upload") then sync_to_github
            else sync_from_github in
  let done := op (set_is_syncing true w) in
  let r := manual_sync direction w in
  r.1 = done.1
  ∧ (done.1 = Ret false →
     last_sync_time r.2 = last_sync_time w
     ∧ sync_state_file r.2 = sync_state_file w
     ∧ callback_runs r.2 = callback_runs w)
  ∧ (done.1 = Ret true →
     last_sync_time r.2 = Some (clock w)
     ∧ _load_last_sync_time r.2 = Some (clock w)
     ∧ callback_runs r.2 = (callback_runs w + sync_callbacks w)%nat).
Proof.
  intros Hidle [-> | ->]; simpl.
  - by apply manual_sync_upload_cases.
  - by apply manual_sync_download_cases.
Qed.

Lemma manual_sync_one_way_witness :
  (manual_sync "upload" offline_state).1 = Ret false
  ∧ last_sync_time (manual_sync "upload" offline_state).2 = Some 1000
  ∧ (manual_sync "upload" fresh_state).1 = Ret true
  ∧ last_sync_time (manual_sync "upload" fresh_state).2 = Some 5000.
Proof.
  destruct (manual_sync_one_way "upload" offline_state) as (Hr & Hfail & _);
    [reflexivity | by left |].
  destruct (manual_sync_one_way "upload" fresh_state) as (Hr' & _ & Hok);
    [reflexivity | by left |].
  split_and!.
  - rewrite Hr. vm_compute. reflexivity.
  - apply Hfail. vm_compute. reflexivity.
  - rewrite Hr'. vm_compute. reflexivity.
  - apply Hok. vm_compute. reflexivity.
Defined.

(** ** The merge under any behaviour of the remote *)

Lemma sync_to_github_table : stable (keeps table) sync_to_github.
Proof.
  unfold sync_to_github, get_contents, update_file, create_file, api_call,
    _update_sync_log.
  stable_solve.
Qed.

Lemma sync_from_github_sync_deletions :
  stable (keeps sync_deletions) sync_from_github.
Proof.
  unfold sync_from_github, get_contents_root, api_call, _import_from_json.
  stable_solve.
Qed.

Lemma sync_from_github_cases (w : State) :
  let r := sync_from_github w in
  (r.1 = Ret false ∧ table r.2 = table w)
  ∨ (r.1 = Ret true
     ∧ ∃ latest, max_by_name (map_to_list (backups w)) = Some latest
                 ∧ NoDup (r_id <$> reflections (rf_content latest.2))
                 ∧ table r.2
                   = list_to_map (as_row <$> reflections (rf_content latest.2))).
Proof.
  run_download; try (by left).
  all: right; split; [done|]; eexists; split; [reflexivity|].
  all: match goal with H : insert_all _ ∅ = Some _ |- _ =>
         apply insert_all_NoDup in H as [Hnd Ht] end.
  all: split; [done|]; by rewrite Ht, insert_each_union, (right_id_L ∅ (∪)).
Qed.

(** The table after a merge, in terms of the table after its download. *)
Lemma _merge_from_remote_table (w : State) :
  let w1 := (sync_from_github w).2 in
  table (_merge_from_remote w).2 =
    if sync_deletions w then table w1
    else restore (dict_by_id (reflections (export_to_json (clock w) (table w))))
           (elements (dom (table w) ∖ dom (table w1) : gset Z)) (table w1).
Proof.
  pose proof (sync_from_github_sync_deletions w) as Hsd.
  pose proof (sync_from_github_returns w) as [b Hb].
  unfold _merge_from_remote, _export_local_data.
  unfold mbind, M_bind, bind, gets at 1. simpl.
  destruct (sync_from_github w) as [r w1]. simpl in *. subst r.
  unfold keeps in Hsd. simpl in Hsd.
  unfold gets, modify. simpl. rewrite Hsd.
  pose proof (dict_by_id_export_dom (clock w) (table w)) as HL.
  pose proof (dict_by_id_export_dom (clock w1) (table w1)) as HR.
  simpl in HL, HR. rewrite HL, HR.
  destruct (sync_deletions w); simpl; [done|].
  match goal with |- context [sync_to_github ?w2] =>
    pose proof (sync_to_github_table w2) as Ht;
    destruct (sync_to_github w2) as [[b'|e] w3] end;
    unfold keeps in Ht; simpl in *; by rewrite Ht.
Qed.

(** X13. With deletion-sync disabled a merge loses no local record,
    whatever the remote holds and whichever call to it fails: every id of
    LocalStore before the merge is an id of LocalStore after it. *)
Theorem merge_keeps_local_ids (w : State) :
  sync_deletions w = false →
  dom (table w) ⊆ dom (table (_merge_from_remote w).2).
Proof.
  intros Hsd i Hi. rewrite _merge_from_remote_table, Hsd.
  apply elem_of_dom. rewrite restore_lookup.
  - case_decide as Hin.
    + rewrite dict_by_id_export.
      apply elem_of_dom in Hi as [c Hc]. rewrite Hc. simpl. by eexists.
    + apply elem_of_dom.
      destruct (decide (i ∈ dom (table (sync_from_github w).2))); [done|].
      exfalso. apply Hin. apply elem_of_elements, elem_of_difference. done.
  - intros j r. rewrite dict_by_id_export.
    destruct (table w !! j); simpl; [|done]. by intros [= <-].
Qed.

Lemma merge_keeps_local_ids_witness :
  dom (table merge_state) ⊆ dom (table (_merge_from_remote merge_state).2).
Proof. apply (merge_keeps_local_ids merge_state). reflexivity. Defined.

(** X14. When the download of a merge fails, the merge leaves the rows of
    LocalStore as they were, under either deletion policy. *)
Theorem merge_download_failure_keeps_store (w : State) :
  (sync_from_github w).1 = Ret false →
  table (_merge_from_remote w).2 = table w.
Proof.
  intros Hfail. rewrite _merge_from_remote_table.
  destruct (sync_from_github_cases w) as [[_ Ht]|[Hok _]];
    [|simpl in *; congruence].
  simpl in Ht. rewrite Ht.
  destruct (sync_deletions w); [done|].
  by rewrite difference_diag_L, elements_empty.
Qed.

Lemma merge_download_failure_keeps_store_witness :
  table (_merge_from_remote offline_state).2 = table offline_state.
Proof.
  apply (merge_download_failure_keeps_store offline_state).
  vm_compute. reflexivity.
Defined.

(** ** The periodic tick and the edits of the store *)

Lemma due_dec (w : State) : due w ∨ ¬ due w.
Proof.
  unfold due.
  destruct (max_updated_at (table w)) as [lm|];
    [|right; by intros (? & ? & ? & _)].
  destruct (last_sync_time w) as [ls|];
    [|right; by intros (? & ? & _ & ? & _)].
  destruct (decide (ls < lm)).
  - left. by exists lm, ls.
  - right. intros (? & ? & ? & ? & ?). simplify_eq. lia.
Qed.

Lemma sync_tick_not_due (w : State) : ¬ due w → sync_tick w = (Ret (), w).
Proof.
  intros Hnot.
  unfold sync_tick, mbind, M_bind, bind, gets, modify, try_finally,
    try_except, _get_local_last_modified.
  simpl. destruct (is_syncing w) eqn:Hbusy; [done|]. simpl.
  assert (set_is_syncing false (set_is_syncing true w) = w) as Hsame
    by (destruct w; simpl in *; by subst).
  destruct (max_updated_at (table w)) as [lm|] eqn:Hlm; simpl;
    [|by rewrite Hsame].
  destruct (last_sync_time w) as [ls|] eqn:Hls; simpl; [|by rewrite Hsame].
  destruct (decide (lm > ls)) as [Hgt|Hle]; simpl; [|by rewrite Hsame].
  exfalso. apply Hnot. exists lm, ls. split_and!; [done | done | lia].
Qed.

Lemma sync_tick_due (w : State) :
  is_syncing w = false → due w →
  (sync_tick w).2 =
    let w1 := (sync_to_github (set_is_syncing true w)).2 in
    set_is_syncing false
      (set_callback_runs (callback_runs w1 + sync_callbacks w1)%nat
         (set_sync_state_file (Some (Some (clock w1)))
            (set_last_sync_time (Some (clock w1)) w1))).
Proof.
  intros Hidle (lm & ls & Hlm & Hls & Hlt).
  by apply (sync_tick_uploads_when_due w lm ls).
Qed.

Lemma due_tick_records_a_sync_aux (w : State) :
  is_syncing w = false → due w →
  last_sync_time (sync_tick w).2 = Some (clock w)
  ∧ table (sync_tick w).2 = table w.
Proof.
  intros Hidle Hdue. rewrite (sync_tick_due w Hidle Hdue).
  pose proof (sync_to_github_session_view (set_is_syncing true w)) as Hv.
  pose proof (sync_to_github_table (set_is_syncing true w)) as Ht.
  unfold keeps, session_view in *. simpl in *.
  injection Hv as _ _ Hc Hs Hk. by rewrite Hk, Ht.
Qed.



Lemma _sync_loop_not_due (n : nat) (w : State) :
  ¬ due w → _sync_loop n w = (Ret (), w).
Proof.
  intros Hnot. induction n as [|n IH]; simpl; [done|].
  unfold mbind, M_bind, bind. by rewrite sync_tick_not_due.
Qed.

Lemma tick_leaves_not_due (w : State) :
  is_syncing w = false →
  (∀ i c, table w !! i = Some c → updated_at c ≤ clock w) →
  ¬ due (sync_tick w).2.
Proof.
  intros Hidle Hstamps.
  destruct (due_dec w) as [Hdue|Hnot]; [|by rewrite (sync_tick_not_due w)].
  destruct (due_tick_records_a_sync_aux w Hidle Hdue) as (Hlast & Ht).
  intros (lm & ls & Hlm & Hls & Hlt).
  rewrite Hlast in Hls. injection Hls as <-. rewrite Ht in Hlm.
  pose proof (max_updated_at_spec (table w)) as Hmax. rewrite Hlm in Hmax.
  destruct Hmax as [(i & c & Hi & <-) _].
  specialize (Hstamps i c Hi). lia.
Qed.

(** X16. After a turn of [_sync_loop], the further turns do nothing as
    long as no row is modified: provided no session is active and no row is
    stamped later than the time of the first turn, any number of turns
    leaves the state that the first turn has left, without a further
    call to the remote. *)
Theorem ticks_after_first_do_nothing (n : nat) (w : State) :
  is_syncing w = false →
  (∀ i c, table w !! i = Some c → updated_at c ≤ clock w) →
  _sync_loop (S n) w = (Ret (), (sync_tick w).2).
Proof.
  intros Hidle Hstamps.
  pose proof (tick_leaves_not_due w Hidle Hstamps) as Hnot.
  pose proof (returns_unit sync_tick w sync_tick_returns) as Hunit.
  simpl. unfold mbind, M_bind, bind.
  destruct (sync_tick w) as [r w1]. simpl in *. injection Hunit as ->.
  by apply _sync_loop_not_due.
Qed.

Lemma ticks_after_first_do_nothing_witness :
  _sync_loop 4 edited_state = (Ret (), (sync_tick edited_state).2).
Proof.
  apply (ticks_after_first_do_nothing 3 edited_state); [reflexivity|].
  intros i c Hi.
  assert (updated_at c ≤ 4000) as Hle; [|simpl; lia].
  pose proof (max_updated_at_spec (table edited_state)) as Hmax.
  change (max_updated_at (table edited_state)) with (Some 4000) in Hmax.
  destruct Hmax as [_ Hmax]. by apply (Hmax i).
Defined.

(** ** Edits and deletions *)

(** X17. [update_reflection] without keyword arguments, or for an id that
    is not in the table, changes nothing, not even a time stamp, and raises
    nothing. *)
Theorem update_reflection_no_effect (i : Z) (u : Update) (w : State) :
  no_kwargs u = true ∨ table w !! i = None →
  update_reflection i u w = (Ret (), w).
Proof.
  intros [Hno|Hmissing]; unfold update_reflection.
  - by rewrite Hno.
  - destruct (no_kwargs u); [done|].
    unfold modify. f_equal. apply set_table_same.
    apply map_eq. intros j. destruct (decide (j = i)) as [->|Hne].
    + by rewrite lookup_alter_eq, Hmissing.
    + by rewrite lookup_alter_ne.
Qed.

Lemma update_reflection_no_effect_witness :
  update_reflection 7 (only_summary "s") fresh_state = (Ret (), fresh_state).
Proof.
  apply (update_reflection_no_effect 7 (only_summary "s") fresh_state).
  right. reflexivity.
Defined.




Lemma max_updated_at_delete (t : gmap Z Cols) (i m' : Z) :
  max_updated_at (delete i t) = Some m' →
  ∃ m, max_updated_at t = Some m ∧ m' ≤ m.
Proof.
  intros Hm'. pose proof (max_updated_at_spec (delete i t)) as Hd.
  rewrite Hm' in Hd. destruct Hd as [(j & c & Hj & <-) _].
  apply lookup_delete_Some in Hj as [_ Hj].
  pose proof (max_updated_at_spec t) as Ht.
  destruct (max_updated_at t) as [m|].
  - exists m. split; [done|]. destruct Ht as [_ Ht]. by apply (Ht j).
  - subst t. by rewrite lookup_empty in Hj.
Qed.

(** X19. A deletion is not seen by [_sync_loop]: [delete_reflection]
    returns True exactly when the row was there and removes that row only,
    and if the turn was not due before the deletion, it is not due after
    it; the turn then makes no call to the remote. *)
Theorem deletion_not_seen_by_tick (i : Z) (w : State) :
  let r := delete_reflection i w in
  (r.1 = Ret (bool_decide (is_Some (table w !! i))))
  ∧ table r.2 = delete i (table w)
  ∧ (¬ due w → ¬ due r.2 ∧ sync_tick r.2 = (Ret (), r.2)).
Proof.
  assert (table (delete_reflection i w).2 = delete i (table w)
          ∧ last_sync_time (delete_reflection i w).2 = last_sync_time w)
    as [Ht Hl].
  { unfold delete_reflection. destruct (table w !! i) eqn:Hi; simpl; [done|].
    split; [|done]. by rewrite delete_id. }
  split_and!.
  - unfold delete_reflection. destruct (table w !! i) eqn:Hi; simpl.
    + first [done | by rewrite bool_decide_eq_true_2].
    + first [done | rewrite bool_decide_eq_false_2; [done|]; by intros [? ?]].
  - exact Ht.
  - intros Hnot.
    assert (¬ due (delete_reflection i w).2) as Hnot'.
    { intros (lm & ls & Hlm & Hls & Hlt). apply Hnot.
      rewrite Ht in Hlm. rewrite Hl in Hls.
      apply max_updated_at_delete in Hlm as (m & Hm & Hle).
      exists m, ls. split_and!; [done | done | lia]. }
    split; [done | by apply sync_tick_not_due].
Qed.

(** X20. The thread of [delete_with_backup] removes the row of the record
    and makes no call to the remote.  It puts the record at the end of the
    backup queue exactly when the row was there and the remote is
    configured; else the queue is as it was. *)
Theorem delete_with_backup_enqueues (reflection : Reflection) (w : State) :
  let r := delete_with_backup reflection w in
  r.1 = Ret ()
  ∧ table r.2 = delete (r_id reflection) (table w)
  ∧ api_trace r.2 = api_trace w
  ∧ deleted_records r.2 = deleted_records w
  ∧ backup_queue r.2 =
      if bool_decide (is_Some (table w !! r_id reflection))
         && is_configured (app_github_sync w)
      then backup_queue w ++ [reflection]
      else backup_queue w.
Proof.
  unfold delete_with_backup, delete_reflection, backup_deleted_record,
    try_except, mbind, M_bind, bind, gets, modify, mret, M_ret, ret.
  simpl. destruct (table w !! r_id reflection) eqn:Hrow; simpl.
  - destruct (is_configured (app_github_sync w)); simpl; done.
  - split_and!; try done. by rewrite delete_id.
Qed.

(** ** The deletion backups *)

Ltac run_backup :=
  unfold _do_backup_to_github, create_deleted, api_call, try_except,
    mbind, M_bind, bind, gets, modify, mret, M_ret, ret;
  run_cases.

Lemma _do_backup_to_github_cases (job : Reflection) (w : State) :
  let r := _do_backup_to_github job w in
  let key := (r_id job, clock w) in
  (r.1 = Ret true
   ∧ deleted_records w !! key = None
   ∧ deleted_records r.2
     = <[key := {| deleted_at := clock w; record := job |}]>
         (deleted_records w))
  ∨ (r.1 = Ret false ∧ deleted_records r.2 = deleted_records w).
Proof. run_backup; auto. Qed.

Lemma _do_backup_to_github_frame (job : Reflection) :
  stable (keeps (λ w, (table w, sync_log w, backups w, backup_queue w,
                       last_sync_time w)))
    (_do_backup_to_github job).
Proof. unfold _do_backup_to_github, create_deleted, api_call. stable_solve. Qed.

(** X21. The write of a deletion backup returns True or False and never
    raises.  When it returns True it has created the file of the record's
    id and the time of the write, which was not there, holding the record
    and that time; when it returns False the deletion backups are as they
    were: an existing file is never replaced.  Either way LocalStore, the
    snapshots and the queue are not touched, so a failed job is not queued
    again. *)
Theorem backup_write_creates_or_leaves (job : Reflection) (w : State) :
  let r := _do_backup_to_github job w in
  let key := (r_id job, clock w) in
  ((r.1 = Ret true
    ∧ deleted_records w !! key = None
    ∧ deleted_records r.2
      = <[key := {| deleted_at := clock w; record := job |}]>
          (deleted_records w))
   ∨ (r.1 = Ret false ∧ deleted_records r.2 = deleted_records w))
  ∧ table r.2 = table w
  ∧ backups r.2 = backups w
  ∧ backup_queue r.2 = backup_queue w.
Proof.
  split; [apply _do_backup_to_github_cases|].
  pose proof (_do_backup_to_github_frame job w) as Hkeep.
  unfold keeps in Hkeep. injection Hkeep as Ht _ Hb Hq _. done.
Qed.

Lemma manual_sync_deleted_records direction :
  stable (keeps deleted_records) (manual_sync direction).
Proof.
  unfold manual_sync, _save_last_sync_time, _notify_sync_complete,
    sync_on_startup, _smart_merge, _merge_from_remote, _export_local_data,
    _get_local_last_modified, _get_remote_last_modified, sync_to_github,
    sync_from_github, get_contents_root, get_contents, get_commits,
    update_file, create_file, api_call, _import_from_json, _update_sync_log.
  stable_solve.
Qed.

Lemma sync_tick_deleted_records : stable (keeps deleted_records) sync_tick.
Proof.
  unfold sync_tick, _get_local_last_modified, _save_last_sync_time,
    _notify_sync_complete, sync_to_github, get_contents, update_file,
    create_file, api_call, _update_sync_log.
  stable_solve.
Qed.

Lemma step_deleted_records s s' :
  step s s' → deleted_records (st s) ⊆ deleted_records (st s').
Proof.
  intros Hstep.
  destruct Hstep as [s job b w' Hrun|s job q Hw Hq|s job Hw
                    |s job b w' Hw Hrun|s direction b w' Hrun|s w' Hrun];
    simpl; try done.
  - rewrite backup_deleted_record_run in Hrun.
    by destruct (is_configured _); injection Hrun as <- <-.
  - destruct (_do_backup_to_github_cases job (st s)) as [(_ & Hnew & Hd)|[_ Hd]];
      rewrite Hrun in Hd; simpl in Hd; rewrite Hd; [|done].
    by apply insert_subseteq.
  - pose proof (manual_sync_deleted_records direction (st s)) as Hkeep.
    rewrite Hrun in Hkeep. unfold keeps in Hkeep. simpl in Hkeep.
    by rewrite Hkeep.
  - pose proof (sync_tick_deleted_records (st s)) as Hkeep.
    rewrite Hrun in Hkeep. unfold keeps in Hkeep. simpl in Hkeep.
    by rewrite Hkeep.
Qed.

Lemma run_steps acts s s' : run acts s = Some s' → rtc step s s'.
Proof.
  revert s. induction acts as [|a acts IH]; intros s; simpl.
  - by intros [= <-].
  - destruct (exec a s) as [s1|] eqn:Hexec; [|done].
    intros Hrun. eapply rtc_l; [by apply (exec_step a) | by apply IH].
Qed.

(** X22. The deletion backups only grow.  Along every run of the
    application, through enqueued deletions, the worker's writes and sync
    sessions in any order, a backup file that exists stays, with the record
    and the time that it was written with. *)
Theorem deletion_backups_only_grow (s s' : System) :
  rtc step s s' →
  ∀ key file, deleted_records (st s) !! key = Some file →
              deleted_records (st s') !! key = Some file.
Proof.
  intros Hsteps key file.
  assert (deleted_records (st s) ⊆ deleted_records (st s')) as Hsub.
  { induction Hsteps as [s|s s1 s2 Hstep _ IH]; [done|].
    etransitivity; [by apply step_deleted_records | exact IH]. }
  intros Hkey. by apply (lookup_weaken _ _ _ _ Hkey).
Qed.

Lemma deletion_backups_only_grow_witness :
  deleted_records (st after_schedule) !! (1, 5000)
  = Some {| deleted_at := 5000; record := job_A |}.
Proof.
  apply (deletion_backups_only_grow after_first_write after_schedule).
  - apply (run_steps [DoManualSync "upload"; DoGet; DoBegin; DoEnd]).
    vm_compute. reflexivity.
  - vm_compute. reflexivity.
Defined.

(** X23. The worker drains the queue.  Started at its [get] with [n] jobs
    queued and no other thread running, [_process_backup_queue] begins and
    ends the write of every queued job, in the order of the queue, whether
    the writes succeed or not, and leaves the queue empty; the states that
    it goes through are states of the transition system. *)
Theorem worker_drains_queue (s : System) :
  worker s = AtGet →
  let s' := _process_backup_queue (length (backup_queue (st s))) s in
  backup_queue (st s') = []
  ∧ worker s' = AtGet
  ∧ written (events s') = written (events s) ++ backup_queue (st s)
  ∧ ended (events s') = ended (events s) ++ backup_queue (st s)
  ∧ (reachable s → reachable s').
Proof.
  intros Hw. by apply _process_backup_queue_drains.
Qed.

Lemma worker_drains_queue_witness :
  backup_queue (st (_process_backup_queue 2 two_queued)) = []
  ∧ written (events (_process_backup_queue 2 two_queued))
    = [export_row 1 (a_row 100 None); export_row 2 (a_row 200 None)].
Proof.
  destruct (worker_drains_queue two_queued) as (Hq & _ & Hwr & _);
    [reflexivity|].
  split; [exact Hq | exact Hwr].
Defined.

(** ** The time of the last sync on disk *)

Lemma manual_sync_other_direction (direction : string) (w : State) :
  direction ≠ "upload" → direction ≠ "download" →
  manual_sync direction w = manual_sync "both" w.
Proof.
  intros Hup Hdown. unfold manual_sync.
  by rewrite !(decide_False (P := direction = _)).
Qed.

Lemma sync_tick_busy (w : State) :
  is_syncing w = true → sync_tick w = (Ret (), w).
Proof.
  intros Hbusy. unfold sync_tick, mbind, M_bind, bind, gets. simpl.
  by rewrite Hbusy.
Qed.

Lemma manual_sync_busy (direction : string) (w : State) :
  is_syncing w = true → manual_sync direction w = (Ret false, w).
Proof.
  intros Hbusy. unfold manual_sync, mbind, M_bind, bind, gets. simpl.
  by rewrite Hbusy.
Qed.

Lemma manual_sync_persisted (direction : string) (w : State) :
  persisted w → persisted (manual_sync direction w).2.
Proof.
  intros Hp. destruct (is_syncing w) eqn:Hidle;
    [by rewrite manual_sync_busy|].
  assert (∀ op, no_raise op → ∀ x : State,
            op x = (Ret true, (op x).2) ∨ op x = (Ret false, (op x).2))
    as Hbool.
  { intros op Hop x. destruct (Hop x) as [b Hb].
    destruct (op x) as [r x']. simpl in *. subst r. destruct b; auto. }
  unfold persisted in *.
  destruct (decide (direction = "upload")) as [->|Hup];
    [|destruct (decide (direction = "download")) as [->|Hdown]].
  - destruct (manual_sync_upload_cases w Hidle) as (_ & Hfail & Hok).
    simpl in Hfail, Hok.
    destruct (Hbool _ sync_to_github_returns (set_is_syncing true w))
      as [Hr|Hr]; rewrite Hr in Hfail, Hok; simpl in *.
    + destruct (Hok eq_refl) as (Hl & Hf & _). congruence.
    + destruct (Hfail eq_refl) as (Hl & Hf & _).
      unfold _load_last_sync_time in *. by rewrite Hl, Hf.
  - destruct (manual_sync_download_cases w Hidle) as (_ & Hfail & Hok).
    simpl in Hfail, Hok.
    destruct (Hbool _ sync_from_github_returns (set_is_syncing true w))
      as [Hr|Hr]; rewrite Hr in Hfail, Hok; simpl in *.
    + destruct (Hok eq_refl) as (Hl & Hf & _). congruence.
    + destruct (Hfail eq_refl) as (Hl & Hf & _).
      unfold _load_last_sync_time in *. by rewrite Hl, Hf.
  - rewrite manual_sync_other_direction by done.
    by rewrite (manual_sync_both_run w Hidle).
Qed.

(** X24. The time of the last sync on disk follows the one in memory.  If
    the state file holds the time that the manager has in memory, it still
    does after a startup sync, after [manual_sync] in any direction and
    after a turn of [_sync_loop], whatever the remote does; and a manager
    that is built anew on these files by [__init__] starts with that time. *)
Theorem last_sync_time_stays_persisted (w : State) :
  persisted w →
  persisted (sync_on_startup w).2
  ∧ (∀ direction, persisted (manual_sync direction w).2)
  ∧ persisted (sync_tick w).2
  ∧ ∀ gh deletions,
      last_sync_time (SyncManager_init gh deletions w) = last_sync_time w
      ∧ persisted (SyncManager_init gh deletions w).
Proof.
  intros Hp. split_and!.
  - destruct (sync_on_startup_run w) as (rt & _ & ->). done.
  - intros direction. by apply manual_sync_persisted.
  - destruct (is_syncing w) eqn:Hidle; [by rewrite sync_tick_busy|].
    destruct (due_dec w) as [Hdue|Hnot]; [|by rewrite sync_tick_not_due].
    by rewrite (sync_tick_due w Hidle Hdue).
  - intros gh deletions. unfold persisted in *. simpl. done.
Qed.

Lemma last_sync_time_stays_persisted_witness :
  persisted (sync_on_startup offline_state).2
  ∧ persisted (manual_sync "upload" offline_state).2
  ∧ last_sync_time (SyncManager_init gh_configured true offline_state)
    = Some 1000.
Proof.
  destruct (last_sync_time_stays_persisted offline_state)
    as (Hs & Hm & _ & Hi); [reflexivity|].
  split_and!; [exact Hs | exact (Hm "upload") |].
  exact (proj1 (Hi gh_configured true)).
Defined.

(** ** The sync log *)

Lemma latest_log_elem (l : list (Z * SyncStatus * string)) acc res :
  foldl (λ acc row,
           match acc with
           | None => Some row
           | Some best => if decide (best.1.1 < row.1.1) then Some row
                          else Some best
           end) acc l = Some res →
  acc = Some res ∨ res ∈ l.
Proof.
  revert acc. induction l as [|x l IH]; intros acc Hres; simpl in *.
  - by left.
  - destruct (IH _ Hres) as [Hacc|Hin]; [|right; by right].
    destruct acc as [best|].
    + destruct (decide (best.1.1 < x.1.1)); simplify_eq;
        [right; left | by left].
    + simplify_eq. right. left.
Qed.

Lemma latest_log_snoc (l : list (Z * SyncStatus * string)) row :
  (∀ old, old ∈ l → old.1.1 < row.1.1) →
  latest_log (l ++ [row]) = Some row.
Proof.
  intros Hlater. unfold latest_log. rewrite foldl_app. simpl.
  destruct (foldl _ None l) as [best|] eqn:Hbest; [|done].
  apply latest_log_elem in Hbest as [?|Hin]; [done|].
  by rewrite decide_True by (by apply Hlater).
Qed.

(** X25. [get_last_sync_info] after an upload tells how the upload went.
    With the remote configured and the clock past the time of every row of
    the sync log, the latest row after [sync_to_github] is the row of this
    upload: its time, with the status success when the upload returned True
    and error when it returned False. *)
Theorem last_sync_info_after_upload (w : State) :
  is_configured (github_sync w) = true →
  (∀ old, old ∈ sync_log w → old.1.1 < clock w) →
  ∃ (b : bool) (message : string),
    (sync_to_github w).1 = Ret b
    ∧ (get_last_sync_info (sync_to_github w).2).1
      = Ret (Some (clock w, if b then StSuccess else StError, message)).
Proof.
  intros Hconf Hclock.
  assert (∃ (b : bool) (message : string),
    (sync_to_github w).1 = Ret b
    ∧ sync_log (sync_to_github w).2
      = sync_log w ++ [(clock w, if b then StSuccess else StError, message)])
    as (b & message & Hb & Hlog).
  { run_upload; try (rewrite Hconf in *; done).
    all: try (eexists true, _; split; reflexivity).
    all: eexists false, _; split; reflexivity. }
  exists b, message. split; [done|].
  unfold get_last_sync_info, gets. simpl. rewrite Hlog.
  by rewrite latest_log_snoc.
Qed.

Lemma last_sync_info_after_upload_witness :
  ∃ (b : bool) (message : string),
    (sync_to_github offline_state).1 = Ret b
    ∧ (get_last_sync_info (sync_to_github offline_state).2).1
      = Ret (Some (clock offline_state,
                   if b then StSuccess else StError, message)).
Proof.
  apply (last_sync_info_after_upload offline_state); [reflexivity|].
  intros old Hold. by apply elem_of_nil in Hold.
Defined.

(** ** The status line *)

Lemma ago_bounds (s : Z) :
  match ago s with
  | JustNow => s < 60
  | MinutesAgo n => 1 ≤ n ≤ 59 ∧ 60 * n ≤ s < 60 * (n + 1)
  | HoursAgo n => 1 ≤ n ≤ 23 ∧ 3600 * n ≤ s < 3600 * (n + 1)
  | DaysAgo n => 1 ≤ n ∧ 86400 * n ≤ s < 86400 * (n + 1)
  end.
Proof.
  unfold ago. repeat case_decide; try done.
  - pose proof (Z.div_mod s 60). pose proof (Z.mod_pos_bound s 60). lia.
  - pose proof (Z.div_mod s 3600). pose proof (Z.mod_pos_bound s 3600). lia.
  - pose proof (Z.div_mod s 86400). pose proof (Z.mod_pos_bound s 86400). lia.
Qed.

(** X26. The status line.  [create_sync_status_text] and
    [update_sync_status] give the same text and colour in every state.
    The age of the last sync is worded with a count that is in range: from
    1 to 59 minutes, from 1 to 23 hours, 1 day or more, the count being the
    whole number of units in the age; an age under a minute, and a last
    sync that lies in the future, is worded as just now. *)
Theorem status_line_counts_in_range (w : State) (s : Z) :
  create_sync_status_text w = update_sync_status w
  ∧ match ago s with
    | JustNow => s < 60
    | MinutesAgo n => 1 ≤ n ≤ 59 ∧ 60 * n ≤ s < 60 * (n + 1)
    | HoursAgo n => 1 ≤ n ≤ 23 ∧ 3600 * n ≤ s < 3600 * (n + 1)
    | DaysAgo n => 1 ≤ n ∧ 86400 * n ≤ s < 86400 * (n + 1)
    end
  ∧ (is_syncing w = false → last_sync_time w = Some (clock w - s) →
     create_sync_status_text w = (ago_text (ago s), GREEN_600)).
Proof.
  split_and!; [done | apply ago_bounds |].
  intros Hidle Hlast. unfold create_sync_status_text. simpl.
  rewrite Hidle, Hlast. do 3 f_equal. lia.
Qed.

Example status_line_examples :
  ago_text (ago 59) = "刚刚同步"
  ∧ ago_text (ago 3599) = "59分钟前同步"
  ∧ ago_text (ago 3600) = "1小时前同步"
  ∧ ago_text (ago 86399) = "23小时前同步"
  ∧ ago_text (ago 200000) = "2天前同步"
  ∧ create_sync_status_text fresh_state = ("从未同步", GREY_600)
  ∧ create_sync_status_text offline_state = ("1小时前同步", GREEN_600).
Proof. vm_compute. split_and!; reflexivity. Qed.

(** ** The startup sync from end to end *)

Lemma _get_remote_last_modified_listing_fails (w : State) (e : exn) :
  repo (github_sync w) = true →
  head (faults w) = Some (Some e) →
  _get_remote_last_modified w = (Ret None, set_api GetContentsRoot w).
Proof.
  intros Hrepo Hfault.
  unfold _get_remote_last_modified, get_contents_root, get_commits, api_call,
    try_except, mbind, M_bind, bind, gets, mret, M_ret, ret.
  simpl. by rewrite Hrepo, Hfault.
Qed.

Lemma _get_remote_last_modified_empty (w : State) :
  repo (github_sync w) = true →
  faults w = [] →
  backups w = ∅ →
  _get_remote_last_modified w = (Ret None, set_api GetContentsRoot w).
Proof.
  intros Hrepo Hfaults Hempty.
  unfold _get_remote_last_modified, get_contents_root, get_commits, api_call,
    try_except, mbind, M_bind, bind, gets, mret, M_ret, ret.
  simpl. rewrite Hrepo, Hfaults. simpl. by rewrite Hempty, map_to_list_empty.
Qed.

Lemma _get_remote_last_modified_ok (w : State) (latest : Z * RemoteFile) :
  repo (github_sync w) = true →
  faults w = [] →
  max_by_name (map_to_list (backups w)) = Some latest →
  _get_remote_last_modified w
  = (Ret (head (rf_commits latest.2)),
     set_api (GetCommits latest.1) (set_api GetContentsRoot w)).
Proof.
  intros Hrepo Hfaults Hmax.
  unfold _get_remote_last_modified, get_contents_root, get_commits, api_call,
    try_except, mbind, M_bind, bind, gets, mret, M_ret, ret.
  simpl. rewrite Hrepo, Hfaults. simpl. rewrite Hmax. simpl.
  rewrite Hfaults. simpl. by rewrite (max_by_name_lookup _ _ Hmax).
Qed.

(** The startup sync when the remote time comes back absent and the calls
    of the upload succeed. *)
Lemma sync_on_startup_uploads (w : State) :
  is_configured (github_sync w) = true →
  tail (faults w) = [] →
  _get_remote_last_modified w = (Ret None, set_api GetContentsRoot w) →
  let w' := (sync_on_startup w).2 in
  table w' = table w
  ∧ backups w' = <[month w := uploaded w]> (backups w)
  ∧ last_sync_time w' = Some (clock w)
  ∧ _load_last_sync_time w' = Some (clock w).
Proof.
  intros Hconf Hfaults Hremote.
  destruct (sync_on_startup_run w) as (rt & Hrt & Hrun).
  rewrite Hremote in Hrt, Hrun. simpl in Hrt. injection Hrt as <-.
  simpl. rewrite Hrun. simpl.
  destruct (sync_to_github_ok (set_api GetContentsRoot w))
    as (w2 & Hup & Ht & Hb & _); [done | done |].
  pose proof (sync_to_github_session_view (set_api GetContentsRoot w)) as Hv.
  unfold mbind, M_bind, bind. rewrite Hup in *. simpl.
  unfold keeps, session_view in Hv. simpl in Hv.
  injection Hv as _ _ _ _ Hk.
  unfold _load_last_sync_time. simpl. rewrite Ht, Hb, Hk. done.
Qed.

(** X27. Upload when the remote is empty.  With the remote configured, no
    call failing and no snapshot in the repository, the startup sync leaves
    LocalStore as it is and creates the snapshot file of the current month
    with one commit: it lists the ids of LocalStore, each once, and
    [total_count] is their number.  The time of the last sync is the time of
    the call, in memory and in the state file. *)
Theorem upload_when_remote_empty (w : State) :
  is_configured (github_sync w) = true →
  faults w = [] →
  backups w = ∅ →
  let w' := (sync_on_startup w).2 in
  let snapshot := export_to_json (clock w) (table w) in
  table w' = table w
  ∧ backups w'
    = {[ month w := {| rf_content := snapshot; rf_commits := [clock w] |} ]}
  ∧ list_to_set (r_id <$> reflections snapshot) = dom (table w)
  ∧ NoDup (r_id <$> reflections snapshot)
  ∧ total_count snapshot = size (table w)
  ∧ last_sync_time w' = Some (clock w)
  ∧ _load_last_sync_time w' = Some (clock w).
Proof.
  intros Hconf Hfaults Hempty.
  destruct (sync_on_startup_uploads w Hconf) as (Ht & Hb & Hl & Hf).
  - by rewrite Hfaults.
  - by apply _get_remote_last_modified_empty; [apply is_configured_repo|..].
  - simpl in *. split_and!; try done.
    + rewrite Hb, Hempty. unfold uploaded. rewrite Hempty, lookup_empty.
      simpl. by rewrite insert_empty.
    + apply (export_ids_set (clock w)).
    + apply (export_ids_NoDup (clock w)).
Qed.

Lemma upload_when_remote_empty_witness :
  table (sync_on_startup fresh_state).2 = table fresh_state
  ∧ last_sync_time (sync_on_startup fresh_state).2 = Some 5000
  ∧ backups (sync_on_startup fresh_state).2
    = {[ 202611 := {| rf_content := export_to_json 5000 (table fresh_state);
                      rf_commits := [5000] |} ]}.
Proof.
  destruct (upload_when_remote_empty fresh_state)
    as (Ht & Hb & _ & _ & _ & Hl & _); [reflexivity..|].
  split_and!; [exact Ht | exact Hl | exact Hb].
Defined.

(** X28. Download when the local store is empty.  With the remote
    configured, no call failing, LocalStore empty and a latest snapshot
    that has a commit and no id twice, the startup sync fills LocalStore
    with exactly the records of that snapshot, each with the values of its
    entry and no embedding, and leaves the repository as it is.  The time of
    the last sync is the time of the call. *)
Theorem download_when_local_empty (w : State) (latest : Z * RemoteFile) :
  is_configured (github_sync w) = true →
  faults w = [] →
  table w = ∅ →
  max_by_name (map_to_list (backups w)) = Some latest →
  rf_commits latest.2 ≠ [] →
  NoDup (r_id <$> reflections (rf_content latest.2)) →
  let w' := (sync_on_startup w).2 in
  let rs := reflections (rf_content latest.2) in
  dom (table w') = list_to_set (r_id <$> rs)
  ∧ (∀ r, r ∈ rs → table w' !! r_id r = Some (import_cols r))
  ∧ backups w' = backups w
  ∧ last_sync_time w' = Some (clock w).
Proof.
  intros Hconf Hfaults Hempty Hmax Hcommits Hnd.
  destruct (sync_on_startup_run w) as (rt & Hrt & Hrun).
  rewrite (_get_remote_last_modified_ok w latest) in Hrt, Hrun
    by (done || by apply is_configured_repo).
  simpl in Hrt. injection Hrt as <-.
  simpl. rewrite Hrun. rewrite Hempty.
  destruct (rf_commits latest.2) as [|t ts] eqn:Hc; [done|]. simpl.
  unfold max_updated_at. rewrite map_fold_empty. simpl.
  unfold mbind, M_bind, bind.
  rewrite (sync_from_github_ok _ latest) by (simpl; done || by rewrite Hfaults).
  simpl. split_and!; [apply imported_dom | | done | done].
  intros r Hr. by apply imported_lookup.
Qed.

(** A fresh installation next to the repository of [merge_state]. *)
Lemma download_when_local_empty_witness :
  dom (table (sync_on_startup (set_table (λ _, ∅) merge_state)).2)
  = list_to_set [2; 3; 4].
Proof.
  destruct (download_when_local_empty (set_table (λ _, ∅) merge_state)
              (202611, {| rf_content := remote_snapshot;
                          rf_commits := [4000] |}))
    as (Hdom & _); [reflexivity.. | done | | exact Hdom].
  refine (bool_decide_unpack _ _). vm_compute. exact I.
Defined.

(** X29. A failed read of the remote time ends in an upload.  With the
    remote configured, when the listing of the repository fails and the
    calls after it succeed, the startup sync takes the remote for empty: it
    writes the export of LocalStore to the snapshot file of the current
    month, whatever that file held and however old the local rows are, and
    records the sync. *)
Theorem read_failure_then_upload (w : State) (e : exn) :
  is_configured (github_sync w) = true →
  faults w = [Some e] →
  let w' := (sync_on_startup w).2 in
  table w' = table w
  ∧ backups w' = <[month w := uploaded w]> (backups w)
  ∧ last_sync_time w' = Some (clock w)
  ∧ _load_last_sync_time w' = Some (clock w).
Proof.
  intros Hconf Hfaults. apply (sync_on_startup_uploads w Hconf).
  - by rewrite Hfaults.
  - apply (_get_remote_last_modified_listing_fails w e).
    + by apply is_configured_repo.
    + by rewrite Hfaults.
Qed.

(** The remote snapshot of ids 2, 3, 4, written after the last local
    change, is replaced by the local ids 1, 2, 3. *)
Lemma read_failure_then_upload_witness :
  ((λ f, r_id <$> reflections (rf_content f.2)) <$>
     max_by_name (map_to_list (backups flaky_state))) = Some [2; 3; 4]
  ∧ backups (sync_on_startup flaky_state).2
    = <[202611 := uploaded flaky_state]> (backups flaky_state)
  ∧ r_id <$> reflections (rf_content (uploaded flaky_state)) = [1; 2; 3].
Proof.
  destruct (read_failure_then_upload flaky_state RequestException)
    as (_ & Hb & _); [reflexivity | reflexivity |].
  split_and!; [vm_compute; reflexivity | exact Hb | vm_compute; reflexivity].
Defined.
